(** * Othello rules engine (open_spiel/games/othello.cc)

    A shallow embedding of the rule engine of the Othello game of
    OpenSpiel, and proofs of the properties its specification states.

    Conventions of the embedding.
    - C++ [int], [Player] and [Action] values are integers of [Z].  On
      every path through the engine the values stay tiny (coordinates in
      [-1, 8], cell indices in [0, 64), counts up to 64), so the only
      function whose arithmetic can leave the range of a 32-bit [int] is
      [RowColToMove] when it is called directly with arbitrary
      arguments; there the signed overflow, undefined in C++, is an
      explicit error of the model.
    - The board is a [std::array<CellState, 64>]: a list of cells, read
      and written by index with stdpp's lookup and insert.  An access
      outside the array is undefined in C++ and is an explicit error of
      the model.
    - [SpielFatalError] and failed [SPIEL_CHECK]s end the process; the
      model returns the site of the fatal error in an error monad.
    - [std::string] values are strings of [String]; [absl::StrCat] and
      [absl::StrAppend] are [String.append], and a [double] is a
      primitive float. *)

From Stdlib Require Import ZArith Lia Bool List PrimFloat Sorted Ascii.
From stdpp Require Import base tactics list numbers strings.

Local Open Scope Z_scope.

(** ** Results of fallible code *)

(** The places of the source that call [SpielFatalError]. *)
Inductive fatal : Set :=
  | MoveTooLarge          (* RowColFromMove: "Move too large: " *)
  | InvalidRowCol         (* RowColToMove: "Invalid move (r, c)" *)
  | InvalidPlayerId       (* PlayerToState: "Invalid player id " *)
  | InvalidMove           (* DoApplyAction: "Invalid move " *)
  | CannotCaptureCell     (* Capture: "Cannot capture cell (r, c)" *)
  | CheckFailed.          (* SPIEL_CHECK_GE / SPIEL_CHECK_LT *)

Inductive error : Set :=
  | SpielFatalError (site : fatal)
  | OutOfBounds           (* array access outside its bounds *)
  | SignedOverflow        (* int arithmetic outside [-2^31, 2^31) *)
  | OutOfFuel.            (* a while loop ran longer than its bound *)

Inductive result (A : Type) : Type :=
  | Ok (a : A)
  | Err (e : error).
Arguments Ok {A} a.
Arguments Err {A} e.

Definition bind {A B : Type} (r : result A) (k : A -> result B) : result B :=
  match r with
  | Ok a => k a
  | Err e => Err e
  end.

Notation "'let*' x := e 'in' k" := (bind e (fun x => k))
  (at level 10, x name, e at level 100, k at level 200).
Notation "'let*' ' p := e 'in' k" := (bind e (fun p => k))
  (at level 10, p pattern, e at level 100, k at level 200).

(** [for (int i = lo; i < lo + n; ++i) body] over a loop state. *)
Fixpoint for_loop {St : Type} (n : nat) (i : Z)
    (body : Z -> St -> result St) (s : St) : result St :=
  match n with
  | O => Ok s
  | S n' => let* s' := body i s in for_loop n' (i + 1) body s'
  end.

(** ** Constants and enumerations *)

Definition int_min : Z := - 2 ^ 31.
Definition int_max : Z := 2 ^ 31 - 1.

(** The value of an [int] expression; outside the range of [int] the
    behaviour is undefined. *)
Definition int_expr (z : Z) : result Z :=
  if (int_min <=? z) && (z <=? int_max) then Ok z else Err SignedOverflow.

(** Modelled from the spec: [kNumPlayers] of othello.h (the header is not
    among the sources): the game has two players. *)
Definition kNumPlayers : Z := 2.

(** Modelled from the spec: [kNumRows] of othello.h, the 8 rows of the
    board. *)
Definition kNumRows : Z := 8.

(** Modelled from the spec: [kNumCols] of othello.h, the 8 columns of the
    board. *)
Definition kNumCols : Z := 8.

(** Modelled from the spec: [kNumCells] of othello.h, the 64 cells of the
    board. *)
Definition kNumCells : Z := kNumRows * kNumCols.

(** Modelled from the spec: [kCellStates] of othello.h, the three states
    of a cell (empty and one per player), the channels of the tensor. *)
Definition kCellStates : Z := 1 + kNumPlayers.

(** Modelled from the spec: [kPassMove] of othello.h, the one reserved
    action that is distinct from all cell indices: the number of cells. *)
Definition kPassMove : Z := kNumCells.

(** Modelled from the spec: [Player] of the framework (spiel_utils.h, not
    among the sources), an integer; the players are 0 and 1. *)
Definition Player : Set := Z.

(** Modelled from the spec: [kInvalidPlayer] of the framework, the value
    of the outcome field while the outcome is undecided. *)
Definition kInvalidPlayer : Player := -3.

(** Modelled from the spec: [kTerminalPlayerId] of the framework, the
    value of the outcome field for a draw; it differs from the players
    and from [kInvalidPlayer]. *)
Definition kTerminalPlayerId : Player := -4.

(** Modelled from the spec: [enum class CellState] of othello.h: empty,
    the colour of player 0 and the colour of player 1. *)
Inductive CellState : Set := kEmpty | kBlack | kWhite.

(** Modelled from the spec: the stored value of a cell state,
    [static_cast<int>(state)]: 0 for empty, 1 and 2 for the colours. *)
Definition CellState_to_int (c : CellState) : Z :=
  match c with
  | kEmpty => 0
  | kBlack => 1
  | kWhite => 2
  end.

(** [==] on cell states. *)
Definition CellState_eqb (a b : CellState) : bool :=
  CellState_to_int a =? CellState_to_int b.

(** Modelled from the spec: [enum Direction] of othello.h, the eight ray
    directions, named as the cases of [GetNext] name them. *)
Inductive Direction : Set :=
  | kUp | kDown | kLeft | kRight
  | kUpRight | kUpLeft | kDownRight | kDownLeft.

(** Modelled from the spec: the directions from [kUp] up to [kLast], which
    the loops over the directions visit: all eight, taken here in the
    order of the cases of [GetNext]. *)
Definition all_directions : list Direction :=
  [kUp; kDown; kLeft; kRight; kUpRight; kUpLeft; kDownRight; kDownLeft].

(** ** The board *)

Abbreviation Board := (list CellState).

(** [board_[i]] as an rvalue. *)
Definition board_read (b : Board) (i : Z) : result CellState :=
  if i <? 0 then Err OutOfBounds
  else match b !! Z.to_nat i with
       | Some c => Ok c
       | None => Err OutOfBounds
       end.

(** [board_[i] = c]. *)
Definition board_write (b : Board) (i : Z) (c : CellState) : result Board :=
  if (0 <=? i) && (i <? Z.of_nat (length b))
  then Ok (<[Z.to_nat i := c]> b)
  else Err OutOfBounds.

(** Modelled from the spec: the read accessor [BoardAt(row, col)] of
    othello.h, the cell of index [row * 8 + col]. *)
Definition BoardAt (b : Board) (row col : Z) : result CellState :=
  board_read b (row * kNumCols + col).

(** The data members of [OthelloState]: the board, the player to move
    and the outcome. *)
Record OthelloState : Type := mkState {
  board_ : Board;
  current_player_ : Player;
  outcome_ : Player
}.

(** The constructor: four discs in the centre; the member initialisers
    of othello.h give player 0 the move and leave the outcome unset. *)
Definition NewInitialState : OthelloState :=
  {| board_ :=
       <[36%nat := kWhite]>
         (<[35%nat := kBlack]>
            (<[28%nat := kBlack]>
               (<[27%nat := kWhite]> (replicate 64 kEmpty))));
     current_player_ := 0;
     outcome_ := kInvalidPlayer |}.

(** ** Coordinates *)

Definition GetNext (row col : Z) (dir : Direction) : Z * Z :=
  match dir with
  | kUp => (row - 1, col)
  | kDown => (row + 1, col)
  | kLeft => (row, col - 1)
  | kRight => (row, col + 1)
  | kUpRight => (row - 1, col + 1)
  | kUpLeft => (row - 1, col - 1)
  | kDownRight => (row + 1, col + 1)
  | kDownLeft => (row + 1, col - 1)
  end.

Definition OnBoard (row col : Z) : bool :=
  (0 <=? row) && (row <? kNumRows) && (0 <=? col) && (col <? kNumCols).

(** [/] and [%] of C++ truncate toward zero: [Z.quot] and [Z.rem]. *)
Definition RowColFromMove (move : Z) : result (Z * Z) :=
  if (move <? 0) || (move >=? kNumCells)
  then Err (SpielFatalError MoveTooLarge)
  else Ok (Z.quot move kNumCols, Z.rem move kNumRows).

Definition RowColToMove (row col : Z) : result Z :=
  if (row <? 0) || (col <? 0) then Err (SpielFatalError InvalidRowCol)
  else
    let* prod := int_expr (row * col) in
    if prod >=? kNumCells then Err (SpielFatalError InvalidRowCol)
    else
      let* scaled := int_expr (row * kNumCols) in
      int_expr (scaled + col).

Definition PlayerToState (player : Player) : result CellState :=
  if player =? 0 then Ok kBlack
  else if player =? 1 then Ok kWhite
  else Err (SpielFatalError InvalidPlayerId).

(** ** Counting and capturing along a ray *)

(** The [while (OnBoard(row, col))] loop of [CountSteps].  The cell is
    read once for the two tests that the source makes on it.  Every
    iteration moves one cell further along the ray, so the loop leaves
    the board after at most [kNumRows] iterations; [fuel] bounds the
    number of iterations, and [CountSteps_loop_fuel] below shows that the
    bound is never reached. *)
Fixpoint CountSteps_loop (fuel : nat) (b : Board) (cell : CellState)
    (dir : Direction) (row col count : Z) : result Z :=
  if OnBoard row col then
    match fuel with
    | O => Err OutOfFuel
    | S fuel' =>
        let* here := BoardAt b row col in
        if CellState_eqb here cell then Ok count
        else if CellState_eqb here kEmpty then Ok 0
        else
          let '(row', col') := GetNext row col dir in
          CountSteps_loop fuel' b cell dir row' col' (count + 1)
    end
  else Ok 0.

Definition CountSteps (b : Board) (player : Player) (move : Z)
    (dir : Direction) : result Z :=
  let* '(row, col) := RowColFromMove move in
  let '(row, col) := GetNext row col dir in
  let count := 0 in
  let* cell := PlayerToState player in
  CountSteps_loop (Z.to_nat kNumRows) b cell dir row col count.

(** The loop over the directions of [CanCapture], with its early return. *)
Fixpoint CanCapture_loop (b : Board) (player : Player) (move : Z)
    (dirs : list Direction) : result bool :=
  match dirs with
  | [] => Ok false
  | direction :: rest =>
      let* steps := CountSteps b player move direction in
      if negb (steps =? 0) then Ok true
      else CanCapture_loop b player move rest
  end.

Definition CanCapture (b : Board) (player : Player) (move : Z) : result bool :=
  let* here := board_read b move in
  if negb (CellState_eqb here kEmpty) then Ok false
  else CanCapture_loop b player move all_directions.

(** The [for (int step = 0; step < steps; step++)] loop of [Capture]; the
    cell is read once for the two tests of the fatal branch. *)
Fixpoint Capture_loop (n : nat) (b : Board) (cell : CellState)
    (dir : Direction) (row col : Z) : result Board :=
  match n with
  | O => Ok b
  | S n' =>
      let* here := BoardAt b row col in
      if CellState_eqb here kEmpty || CellState_eqb here cell
      then Err (SpielFatalError CannotCaptureCell)
      else
        let* index := RowColToMove row col in
        let* b' := board_write b index cell in
        let '(row', col') := GetNext row col dir in
        Capture_loop n' b' cell dir row' col'
  end.

Definition Capture (b : Board) (player : Player) (move : Z)
    (dir : Direction) (steps : Z) : result Board :=
  let* '(row, col) := RowColFromMove move in
  let '(row, col) := GetNext row col dir in
  let* cell := PlayerToState player in
  Capture_loop (Z.to_nat steps) b cell dir row col.

Definition DiskCount (b : Board) (player : Player) : result Z :=
  let count := 0 in
  let* cell := PlayerToState player in
  for_loop (Z.to_nat kNumCells) 0
    (fun i count =>
       let* here := board_read b i in
       Ok (if CellState_eqb here cell then count + 1 else count))
    count.

(** ** Legal moves *)

Definition ValidAction (b : Board) (player : Player) (move : Z) : result bool :=
  let* here := board_read b move in
  if CellState_eqb here kEmpty then CanCapture b player move else Ok false.

Definition LegalRegularActions (b : Board) (p : Player) : result (list Z) :=
  for_loop (Z.to_nat kNumCells) 0
    (fun cell moves =>
       let* valid := ValidAction b p cell in
       Ok (if valid then moves ++ [cell] else moves))
    [].

Definition is_empty {A : Type} (l : list A) : bool :=
  match l with
  | [] => true
  | _ :: _ => false
  end.

Definition NoValidActions (b : Board) : result bool :=
  let* moves0 := LegalRegularActions b 0 in
  if is_empty moves0 then
    let* moves1 := LegalRegularActions b 1 in
    Ok (is_empty moves1)
  else Ok false.

Definition IsTerminal (s : OthelloState) : bool :=
  negb (outcome_ s =? kInvalidPlayer).

Definition LegalActions (s : OthelloState) : result (list Z) :=
  if IsTerminal s then Ok []
  else
    let* moves := LegalRegularActions (board_ s) (current_player_ s) in
    Ok (if is_empty moves then moves ++ [kPassMove] else moves).

(** ** Applying a move *)

(** The loop over the directions of [DoApplyAction]: count, then flip. *)
Fixpoint DoApplyAction_captures (b : Board) (player : Player) (move : Z)
    (dirs : list Direction) : result Board :=
  match dirs with
  | [] => Ok b
  | direction :: rest =>
      let* steps := CountSteps b player move direction in
      let* b' := (if steps >? 0 then Capture b player move direction steps
                  else Ok b) in
      DoApplyAction_captures b' player move rest
  end.

(** The board of [DoApplyAction] once the piece is placed and all
    captures are done. *)
Definition DoApplyAction_board (b : Board) (player : Player) (move : Z)
    : result Board :=
  let* cell := PlayerToState player in
  let* placed := board_write b move cell in
  DoApplyAction_captures placed player move all_directions.

Definition DoApplyAction (s : OthelloState) (move : Z) : result OthelloState :=
  if move =? kPassMove then
    Ok {| board_ := board_ s;
          current_player_ := 1 - current_player_ s;
          outcome_ := outcome_ s |}
  else
    let* valid := ValidAction (board_ s) (current_player_ s) move in
    if negb valid then Err (SpielFatalError InvalidMove)
    else
      let* b := DoApplyAction_board (board_ s) (current_player_ s) move in
      let* ended := NoValidActions b in
      if ended then
        let* count_zero := DiskCount b 0 in
        let* count_one := DiskCount b 1 in
        Ok {| board_ := b;
              current_player_ := current_player_ s;
              outcome_ := if count_zero >? count_one then 0
                          else if count_zero <? count_one then 1
                          else kTerminalPlayerId |}
      else
        Ok {| board_ := b;
              current_player_ := 1 - current_player_ s;
              outcome_ := outcome_ s |}.

(** ** Returns and observations *)

Definition Returns (s : OthelloState) : list float :=
  if outcome_ s =? 0 then [1%float; (-1)%float]
  else if outcome_ s =? 1 then [(-1)%float; 1%float]
  else [0%float; 0%float].

(** Modelled from the spec: the constructor of [TensorView<2>] of
    utils/tensor_view.h (not among the sources), a row-major view of a
    vector of doubles as a [shape0] by [shape1] tensor; built with
    [reset = true] it resizes the vector to [shape0 * shape1] entries and
    fills it with 0.0. *)
Definition TensorView_reset (shape0 shape1 : Z) (values : list float)
    : list float :=
  replicate (Z.to_nat (shape0 * shape1)) 0%float.

(** Modelled from the spec: the assignment [view[{i, j}] = x] of
    [TensorView<2>], to the entry [i * shape1 + j] of the vector. *)
Definition TensorView_set (shape1 : Z) (values : list float) (i j : Z)
    (x : float) : result (list float) :=
  let index := i * shape1 + j in
  if (0 <=? index) && (index <? Z.of_nat (length values))
  then Ok (<[Z.to_nat index := x]> values)
  else Err OutOfBounds.

Definition ObservationTensor (b : Board) (player : Player)
    (values : list float) : result (list float) :=
  if negb (player >=? 0) then Err (SpielFatalError CheckFailed)
  else if negb (player <? kNumPlayers) then Err (SpielFatalError CheckFailed)
  else
    let view := TensorView_reset kCellStates kNumCells values in
    for_loop (Z.to_nat kNumCells) 0
      (fun cell view =>
         let* here := board_read b cell in
         let value := CellState_to_int here in
         if player =? 1 then
           if value =? 2 then TensorView_set kNumCells view 1 cell 1%float
           else if value =? 1 then TensorView_set kNumCells view 2 cell 1%float
           else TensorView_set kNumCells view 0 cell 1%float
         else TensorView_set kNumCells view value cell 1%float)
      view.


(** ** Rendering *)

(** The code of a character, and [static_cast<char>] of an [int]. *)
Definition int_of_char (c : ascii) : Z := Z.of_N (N_of_ascii c).

Definition char_of_int (z : Z) : ascii := ascii_of_N (Z.to_N (z mod 256)).

(** The line feed of the string literals of the source. *)
Definition newline : string := String (ascii_of_N 10) "".

(** The conversion of an [Action] (a 64-bit integer) to the [int]
    parameter of [RowColFromMove]: the value modulo [2^32] in the range
    of [int]. *)
Definition int_of_Action (action : Z) : Z :=
  (action - int_min) mod 2 ^ 32 + int_min.

(** The switch has a fatal default case for a value outside the
    enumeration, which no cell state is. *)
Definition StateToString (player : Player) (state : CellState) : string :=
  match state with
  | kEmpty => "-"
  | kWhite => if player =? 0 then "o" else "x"
  | kBlack => if player =? 0 then "x" else "o"
  end.

Definition ActionToString (player : Player) (action_id : Z) : result string :=
  if action_id =? kPassMove then
    let* cell := PlayerToState player in
    Ok (StateToString player cell +:+ "(pass)")
  else
    let* '(row, col) := RowColFromMove (int_of_Action action_id) in
    let row_label := String (char_of_int (int_of_char "1" + row)) "" in
    let col_label := String (char_of_int (int_of_char "a" + col)) "" in
    let* cell := PlayerToState player in
    Ok (col_label +:+ row_label +:+ " (" +:+ StateToString player cell +:+ ")").

Definition ToStringForPlayer (b : Board) (player : Player) : result string :=
  let str := "" in
  let col_labels := "  a b c d e f g h  " in
  let str := str +:+ col_labels +:+ newline in
  let* str :=
    for_loop (Z.to_nat kNumRows) 0
      (fun r str =>
         let label := String (char_of_int (int_of_char "1" + r)) "" in
         let str := str +:+ label +:+ " " in
         let* str :=
           for_loop (Z.to_nat kNumCols) 0
             (fun c str =>
                let* here := BoardAt b r c in
                Ok (str +:+ StateToString player here +:+ " "))
             str in
         Ok (str +:+ label +:+ newline))
      str in
  Ok (str +:+ col_labels).

Definition ToString (s : OthelloState) : result string :=
  ToStringForPlayer (board_ s) (current_player_ s).

Definition ObservationString (b : Board) (player : Player) : result string :=
  if negb (player >=? 0) then Err (SpielFatalError CheckFailed)
  else if negb (player <? kNumPlayers) then Err (SpielFatalError CheckFailed)
  else ToStringForPlayer b player.

(** ** Notions used to state the properties *)

(** The cell reached from [(row, col)] after [k] calls of [GetNext] in
    direction [dir]. *)
Fixpoint ray (dir : Direction) (row col : Z) (k : nat) : Z * Z :=
  match k with
  | O => (row, col)
  | S k' => let '(row', col') := GetNext row col dir in ray dir row' col' k'
  end.

(** The [k]-th cell of the walk that [CountSteps] and [Capture] start at
    [move]: [k = 0] is the cell of the move, [k = 1] the adjacent cell. *)
Definition walk (move : Z) (dir : Direction) (k : nat) : Z * Z :=
  ray dir (Z.quot move kNumCols) (Z.rem move kNumRows) k.

Definition walk_on_board (move : Z) (dir : Direction) (k : nat) : bool :=
  OnBoard (fst (walk move dir k)) (snd (walk move dir k)).

Definition walk_cell (b : Board) (move : Z) (dir : Direction) (k : nat)
    : result CellState :=
  BoardAt b (fst (walk move dir k)) (snd (walk move dir k)).

(** A cell of the opponent of the player whose colour is [cell]: a cell
    on which the walk of [CountSteps] goes on. *)
Definition opposing (cell : CellState) (here : result CellState) : Prop :=
  exists c, here = Ok c /\ c <> cell /\ c <> kEmpty.

(** The first [n] cells from [(row, col)] on are on the board and hold
    the opponent's colour. *)
Definition opposing_run (b : Board) (cell : CellState) (dir : Direction)
    (row col : Z) (n : nat) : Prop :=
  forall k, (k < n)%nat ->
    OnBoard (fst (ray dir row col k)) (snd (ray dir row col k)) = true /\
    opposing cell (BoardAt b (fst (ray dir row col k)) (snd (ray dir row col k))).

(** How many cells of the ray from [(row, col)] on are left before the
    edge of the board that direction [dir] runs into. *)
Definition steps_left (dir : Direction) (row col : Z) : Z :=
  match dir with
  | kUp | kUpRight | kUpLeft => row + 1
  | kDown | kDownRight | kDownLeft => kNumRows - row
  | kLeft => col + 1
  | kRight => kNumCols - col
  end.

(** The step of the cell index that one step in a direction makes. *)
Definition index_step (dir : Direction) : Z :=
  let '(row, col) := GetNext 0 0 dir in row * kNumCols + col.

Definition valid_player (player : Player) : Prop := player = 0 \/ player = 1.

(** The moves that the loop of [LegalRegularActions] has collected when
    it reaches cell [j]. *)
Definition regular_upto (b : Board) (p : Player) (j : Z) (moves : list Z) : Prop :=
  StronglySorted Z.lt moves /\
  forall cell, In cell moves <-> 0 <= cell < j /\ ValidAction b p cell = Ok true.

(** The number of cells of a board that hold a colour. *)
Definition disks (b : Board) (cell : CellState) : Z :=
  Z.of_nat (length (List.filter (fun here => CellState_eqb here cell) b)).

(** A position one move before the end: Black to move can take the only
    white disc, on cell 1, by playing cell 0. *)
Definition LastMoveState : OthelloState :=
  {| board_ := <[2%nat := kBlack]> (<[1%nat := kWhite]> (replicate 64 kEmpty));
     current_player_ := 0;
     outcome_ := kInvalidPlayer |}.

(** The entry of channel [channel] and cell [cell] of an observation
    tensor of three channels of 64 cells. *)
Definition tensor_at (values : list float) (channel cell : Z) : option float :=
  values !! Z.to_nat (channel * kNumCells + cell).

(** The channel that carries the 1.0 of a cell: the stored value of the
    cell for player 0; for player 1 the values 1 and 2 change places. *)
Definition observed_channel (player : Player) (here : CellState) : Z :=
  if player =? 1 then
    match here with
    | kEmpty => 0
    | kBlack => 2
    | kWhite => 1
    end
  else CellState_to_int here.

(** The tensor once the loop of [ObservationTensor] has reached cell [j]:
    one-hot on the cells before [j], zero on the others. *)
Definition observed_upto (b : Board) (player : Player) (j : Z)
    (view : list float) : Prop :=
  length view = 192%nat /\
  forall channel cell here,
    0 <= channel < 3 -> 0 <= cell < 64 -> board_read b cell = Ok here ->
    tensor_at view channel cell =
      Some (if (cell <? j) && (channel =? observed_channel player here)
            then 1%float else 0%float).

(** The invariant of the data members: 64 cells and a player to move. *)
Definition state_ok (s : OthelloState) : Prop :=
  length (board_ s) = 64%nat /\ valid_player (current_player_ s).

(** The states of a game: the opening position and what [DoApplyAction]
    makes of them. *)
Inductive reachable : OthelloState -> Prop :=
  | reachable_initial : reachable NewInitialState
  | reachable_apply (s s' : OthelloState) (move : Z) :
      reachable s -> DoApplyAction s move = Ok s' -> reachable s'.

(** The board with the two colours exchanged. *)
Definition swap_colour (c : CellState) : CellState :=
  match c with
  | kEmpty => kEmpty
  | kBlack => kWhite
  | kWhite => kBlack
  end.

Definition swap_colours (b : Board) : Board := swap_colour <$> b.

(** The index of the [k]-th cell of a walk. *)
Definition walk_index_of (move : Z) (dir : Direction) (k : nat) : Z :=
  fst (walk move dir k) * kNumCols + snd (walk move dir k).

(** The number of discs that a move of [player] at [move] flanks in a
    direction on a board: the count of [CountSteps]. *)
Definition flank (b : Board) (player : Player) (move : Z) (dir : Direction) : Z :=
  match CountSteps b player move dir with
  | Ok steps => steps
  | Err _ => 0
  end.

Definition flank_sum (b : Board) (player : Player) (move : Z)
    (dirs : list Direction) : Z :=
  foldr (fun dir total => flank b player move dir + total) 0 dirs.

(** The number of discs that the move flanks in the eight directions. *)
Definition flips (b : Board) (player : Player) (move : Z) : Z :=
  flank_sum b player move all_directions.

(** The cell of index [i] is one of the cells that the move flanks in
    one of the directions [dirs]. *)
Definition flanked_in (b : Board) (player : Player) (move : Z)
    (dirs : list Direction) (i : Z) : Prop :=
  exists dir k,
    In dir dirs /\ (1 <= k)%nat /\ Z.of_nat k <= flank b player move dir /\
    i = walk_index_of move dir k.

Definition flanked (b : Board) (player : Player) (move : Z) (i : Z) : Prop :=
  flanked_in b player move all_directions i.

(** A driver that applies a sequence of actions, one after the other. *)
Fixpoint play (s : OthelloState) (moves : list Z) : result OthelloState :=
  match moves with
  | [] => Ok s
  | move :: rest => let* s' := DoApplyAction s move in play s' rest
  end.

(** Whether the player to move has a regular move. *)
Definition has_regular_move (s : OthelloState) : bool :=
  match LegalRegularActions (board_ s) (current_player_ s) with
  | Ok (_ :: _) => true
  | _ => false
  end.

(** A measure of what is left of a game: twice the number of empty
    cells, less one when the player to move has a regular move. *)
Definition game_measure (s : OthelloState) : Z :=
  2 * disks (board_ s) kEmpty - (if has_regular_move s then 1 else 0).

(** A game played by the rules: every action is one that [LegalActions]
    returns in the state it is applied to. *)
Inductive legal_game : OthelloState -> list Z -> OthelloState -> Prop :=
  | legal_game_nil (s : OthelloState) : legal_game s [] s
  | legal_game_cons (s s1 s' : OthelloState) (legal : list Z) (move : Z)
      (rest : list Z) :
      LegalActions s = Ok legal -> In move legal ->
      DoApplyAction s move = Ok s1 ->
      legal_game s1 rest s' ->
      legal_game s (move :: rest) s'.

(** The outcome that the disc counts of a board give. *)
Definition winner (b : Board) : Player :=
  if disks b kBlack >? disks b kWhite then 0
  else if disks b kBlack <? disks b kWhite then 1
  else kTerminalPlayerId.

(** A result with the colours of its board exchanged. *)
Definition swap_result (r : result Board) : result Board :=
  match r with
  | Ok b => Ok (swap_colours b)
  | Err e => Err e
  end.

(** The glyphs of the board text that the loop of [ToStringForPlayer]
    has written when it reaches row [r]: the text has 20 characters for
    the header and 20 for each row, and cell [(row, col)] of the rows
    before [r] shows at place [22 + 20 * row + 2 * col]. *)
Definition text_upto (b : Board) (player : Player) (r : Z) (str : string) : Prop :=
  Z.of_nat (String.length str) = 20 + 20 * r /\
  forall row col here (n : nat),
    0 <= row < r -> 0 <= col < 8 -> BoardAt b row col = Ok here ->
    Z.of_nat n = 22 + 20 * row + 2 * col ->
    String.get n str = String.get 0 (StateToString player here).

(** The same within row [r], when the inner loop reaches column [c],
    for a text that starts with [str0]. *)
Definition row_upto (b : Board) (player : Player) (r : Z) (str0 : string)
    (c : Z) (str : string) : Prop :=
  Z.of_nat (String.length str) = Z.of_nat (String.length str0) + 2 * c /\
  (forall n, (n < String.length str0)%nat -> String.get n str = String.get n str0) /\
  forall col here (n : nat),
    0 <= col < c -> BoardAt b r col = Ok here ->
    Z.of_nat n = Z.of_nat (String.length str0) + 2 * col ->
    String.get n str = String.get 0 (StateToString player here).

(** * Properties *)

(** ** The error monad and the cell type *)

Lemma bind_Ok {A B : Type} (r : result A) (k : A -> result B) (y : B) :
  bind r k = Ok y <-> exists x, r = Ok x /\ k x = Ok y.
Proof.
  destruct r as [x|e]; simpl; split.
  - intros H. exists x. split; [reflexivity | exact H].
  - intros (x' & Hx & Hk). injection Hx as ->. exact Hk.
  - discriminate.
  - intros (x' & Hx & _). discriminate.
Qed.

Lemma CellState_eqb_eq (a b : CellState) : CellState_eqb a b = true <-> a = b.
Proof. destruct a, b; unfold CellState_eqb; simpl; split; congruence. Qed.

Lemma CellState_eqb_neq (a b : CellState) : CellState_eqb a b = false <-> a <> b.
Proof. destruct a, b; unfold CellState_eqb; simpl; split; congruence. Qed.

Lemma CellState_eqb_refl (a : CellState) : CellState_eqb a a = true.
Proof. apply CellState_eqb_eq. reflexivity. Qed.

Lemma PlayerToState_Ok (player : Player) (cell : CellState) :
  PlayerToState player = Ok cell ->
  (player = 0 /\ cell = kBlack) \/ (player = 1 /\ cell = kWhite).
Proof.
  unfold PlayerToState.
  destruct (player =? 0) eqn:H0; [apply Z.eqb_eq in H0; left; split; congruence|].
  destruct (player =? 1) eqn:H1; [apply Z.eqb_eq in H1; right; split; congruence|].
  discriminate.
Qed.

Lemma PlayerToState_not_empty (player : Player) (cell : CellState) :
  PlayerToState player = Ok cell -> cell <> kEmpty.
Proof. intros H. apply PlayerToState_Ok in H as [[_ ->]|[_ ->]]; discriminate. Qed.

(** ** Coordinates *)

Lemma OnBoard_true (row col : Z) :
  OnBoard row col = true <-> 0 <= row < 8 /\ 0 <= col < 8.
Proof. unfold OnBoard, kNumRows, kNumCols. lia. Qed.

Lemma OnBoard_false (row col : Z) :
  OnBoard row col = false <-> ~ (0 <= row < 8 /\ 0 <= col < 8).
Proof. rewrite <- OnBoard_true. destruct (OnBoard row col); split; congruence. Qed.

Lemma RowColFromMove_Ok (move : Z) :
  0 <= move < 64 -> RowColFromMove move = Ok (move / 8, move mod 8).
Proof.
  intros H. unfold RowColFromMove, kNumCells, kNumRows, kNumCols.
  replace ((move <? 0) || (move >=? 8 * 8)) with false by lia.
  rewrite Z.quot_div_nonneg, Z.rem_mod_nonneg by lia. reflexivity.
Qed.

Lemma RowColFromMove_OnBoard (move : Z) :
  0 <= move < 64 -> OnBoard (move / 8) (move mod 8) = true.
Proof.
  intros H. apply OnBoard_true.
  pose proof (Z.mod_pos_bound move 8 ltac:(lia)).
  split; [|lia]. split; [apply Z.div_pos; lia | apply Z.div_lt_upper_bound; lia].
Qed.

Lemma RowColToMove_OnBoard (row col : Z) :
  OnBoard row col = true -> RowColToMove row col = Ok (row * 8 + col).
Proof.
  intros H%OnBoard_true. unfold RowColToMove, int_expr, int_min, int_max, kNumCells, kNumRows, kNumCols.
  replace ((row <? 0) || (col <? 0)) with false by lia.
  assert (0 <= row * col <= 49) by nia.
  replace ((- 2 ^ 31 <=? row * col) && (row * col <=? 2 ^ 31 - 1)) with true by lia.
  simpl bind.
  replace (row * col >=? 8 * 8) with false by lia.
  replace ((- 2 ^ 31 <=? row * 8) && (row * 8 <=? 2 ^ 31 - 1)) with true by lia.
  simpl bind.
  replace ((- 2 ^ 31 <=? row * 8 + col) && (row * 8 + col <=? 2 ^ 31 - 1)) with true by lia.
  reflexivity.
Qed.

(** C7. [RowColToMove(row, col)] ends in its fatal error exactly when
    [row < 0], or [col < 0], or the product [row * col] is at least 64 (a
    check of the product, not of each coordinate), and for every other
    pair it returns [row * 8 + col].  This holds for all arguments on
    which the [int] arithmetic that the function evaluates stays in the
    range of [int]: for arguments that are both non-negative, the product
    [row * col] of the check and, when the check passes, the index
    [row * 8 + col]; a negative argument ends the function before any
    arithmetic. *)
Theorem RowColToMove_product_check (row col : Z) :
  (0 <= row -> 0 <= col -> row * col <= int_max) ->
  (0 <= row -> 0 <= col -> row * col < 64 -> row * 8 + col <= int_max) ->
  (RowColToMove row col = Err (SpielFatalError InvalidRowCol)
     <-> row < 0 \/ col < 0 \/ row * col >= 64) /\
  (~ (row < 0 \/ col < 0 \/ row * col >= 64) ->
     RowColToMove row col = Ok (row * 8 + col)).
Proof.
  intros Hprod Hindex.
  unfold RowColToMove, int_expr, kNumCells, kNumRows, kNumCols.
  destruct ((row <? 0) || (col <? 0)) eqn:Hneg.
  { split; [split; [lia|reflexivity] | lia]. }
  assert (Hrow : 0 <= row) by lia. assert (Hcol : 0 <= col) by lia.
  specialize (Hprod Hrow Hcol). specialize (Hindex Hrow Hcol).
  assert (Hprod0 : 0 <= row * col) by nia.
  unfold int_min, int_max in *.
  replace ((- 2 ^ 31 <=? row * col) && (row * col <=? 2 ^ 31 - 1)) with true
    by lia.
  cbn [bind].
  destruct (row * col >=? 8 * 8) eqn:Hbig.
  { split; [split; [lia|reflexivity] | lia]. }
  specialize (Hindex ltac:(lia)).
  replace ((- 2 ^ 31 <=? row * 8) && (row * 8 <=? 2 ^ 31 - 1)) with true by lia.
  cbn [bind].
  replace ((- 2 ^ 31 <=? row * 8 + col) && (row * 8 + col <=? 2 ^ 31 - 1))
    with true by lia.
  split; [split; [discriminate|lia] | reflexivity].
Qed.

(** A pair that is off the board in one coordinate and passes the check,
    and the pair of two coordinates just off the board. *)
Lemma RowColToMove_product_check_witness :
  RowColToMove 9 7 = Ok 79 /\
  RowColToMove 8 8 = Err (SpielFatalError InvalidRowCol).
Proof.
  split.
  - apply (proj2 (RowColToMove_product_check 9 7
                    ltac:(unfold int_max; lia) ltac:(unfold int_max; lia))).
    lia.
  - apply (proj1 (RowColToMove_product_check 8 8
                    ltac:(unfold int_max; lia) ltac:(unfold int_max; lia))).
    lia.
Defined.

(** C8. For a move in [0, 64), [RowColFromMove] returns the pair
    [(move div 8, move mod 8)] and [RowColToMove] maps that pair back to
    the move, both without error; the other way round, a pair on the
    board is mapped to a move that [RowColFromMove] maps back to the
    pair.  For a move outside [0, 64), [RowColFromMove] ends in its
    fatal error. *)
Theorem RowColFromMove_RowColToMove (move : Z) :
  (0 <= move < 64 ->
     RowColFromMove move = Ok (move / 8, move mod 8) /\
     RowColToMove (move / 8) (move mod 8) = Ok move /\
     (let* '(row, col) := RowColFromMove move in RowColToMove row col) = Ok move) /\
  (forall row col,
     OnBoard row col = true ->
     (let* index := RowColToMove row col in RowColFromMove index) = Ok (row, col)) /\
  (~ 0 <= move < 64 ->
     RowColFromMove move = Err (SpielFatalError MoveTooLarge)).
Proof.
  split; [|split].
  - intros H.
    assert (Hback : RowColToMove (move / 8) (move mod 8) = Ok move).
    { rewrite RowColToMove_OnBoard by (apply RowColFromMove_OnBoard; exact H).
      f_equal. pose proof (Z.div_mod move 8 ltac:(lia)). lia. }
    rewrite RowColFromMove_Ok by exact H. simpl bind. auto.
  - intros row col Hon. rewrite (RowColToMove_OnBoard _ _ Hon). cbn [bind].
    apply OnBoard_true in Hon. rewrite RowColFromMove_Ok by lia.
    f_equal. f_equal.
    + symmetry. apply (Z.div_unique _ _ _ col); lia.
    + symmetry. apply (Z.mod_unique _ _ row col); lia.
  - intros H. unfold RowColFromMove, kNumCells, kNumRows, kNumCols.
    replace ((move <? 0) || (move >=? 8 * 8)) with true by lia. reflexivity.
Qed.

(** ** Pass, terminal states and returns *)

(** C6. Applying the Pass action succeeds in every state, whatever the
    legal moves are, and yields the state with the same board, the same
    outcome and the current player [1 - current_player_]: the other
    player, for both players. *)
Theorem DoApplyAction_pass (s : OthelloState) :
  DoApplyAction s kPassMove =
    Ok {| board_ := board_ s;
          current_player_ := 1 - current_player_ s;
          outcome_ := outcome_ s |} /\
  (current_player_ s = 0 -> 1 - current_player_ s = 1) /\
  (current_player_ s = 1 -> 1 - current_player_ s = 0).
Proof. split; [reflexivity | lia]. Qed.

(** C10. In a state whose outcome is undecided [Returns] is [{0.0, 0.0}],
    the value it has in a state whose outcome is a draw. *)
Theorem Returns_undecided (s : OthelloState) :
  IsTerminal s = false ->
  Returns s = [0%float; 0%float] /\
  Returns {| board_ := board_ s;
             current_player_ := current_player_ s;
             outcome_ := kTerminalPlayerId |} = Returns s /\
  IsTerminal {| board_ := board_ s;
                current_player_ := current_player_ s;
                outcome_ := kTerminalPlayerId |} = true.
Proof.
  unfold IsTerminal, Returns. intros H.
  apply negb_false_iff, Z.eqb_eq in H. simpl. rewrite H. auto.
Qed.

Lemma Returns_undecided_witness :
  Returns NewInitialState = [0%float; 0%float] /\
  Returns {| board_ := board_ NewInitialState;
             current_player_ := current_player_ NewInitialState;
             outcome_ := kTerminalPlayerId |} = Returns NewInitialState /\
  IsTerminal {| board_ := board_ NewInitialState;
                current_player_ := current_player_ NewInitialState;
                outcome_ := kTerminalPlayerId |} = true.
Proof. apply (Returns_undecided NewInitialState). reflexivity. Defined.

(** ** Reading and writing the board *)

Lemma board_read_lookup (b : Board) (i : Z) (c : CellState) :
  board_read b i = Ok c <-> 0 <= i /\ b !! Z.to_nat i = Some c.
Proof.
  unfold board_read. destruct (i <? 0) eqn:Hi.
  - split; [discriminate | lia].
  - destruct (b !! Z.to_nat i) as [c'|]; split.
    + intros [= ->]. split; [lia | reflexivity].
    + intros [_ [= ->]]. reflexivity.
    + discriminate.
    + intros [_ [=]].
Qed.

Lemma board_read_total (b : Board) (i : Z) :
  0 <= i < Z.of_nat (length b) -> exists c, board_read b i = Ok c.
Proof.
  intros H. destruct (lookup_lt_is_Some_2 b (Z.to_nat i)) as [c Hc]; [lia|].
  exists c. apply board_read_lookup. split; [lia | exact Hc].
Qed.

Lemma board_read_range (b : Board) (i : Z) (c : CellState) :
  board_read b i = Ok c -> 0 <= i < Z.of_nat (length b).
Proof.
  intros [H0 Hc]%board_read_lookup. apply lookup_lt_Some in Hc. lia.
Qed.

Lemma BoardAt_total (b : Board) (row col : Z) :
  length b = 64%nat -> OnBoard row col = true ->
  exists c, BoardAt b row col = Ok c.
Proof.
  intros Hlen H%OnBoard_true. apply board_read_total.
  unfold kNumCols. lia.
Qed.

Lemma board_write_Ok (b : Board) (i : Z) (c : CellState) :
  0 <= i < Z.of_nat (length b) ->
  board_write b i c = Ok (<[Z.to_nat i := c]> b).
Proof.
  intros H. unfold board_write.
  replace ((0 <=? i) && (i <? Z.of_nat (length b))) with true by lia.
  reflexivity.
Qed.

Lemma board_read_insert_eq (b : Board) (i : Z) (c : CellState) :
  0 <= i < Z.of_nat (length b) ->
  board_read (<[Z.to_nat i := c]> b) i = Ok c.
Proof.
  intros H. apply board_read_lookup. split; [lia|].
  apply list_lookup_insert_eq. lia.
Qed.

Lemma board_read_insert_ne (b : Board) (i j : Z) (c : CellState) :
  0 <= i -> 0 <= j -> i <> j ->
  board_read (<[Z.to_nat i := c]> b) j = board_read b j.
Proof.
  intros Hi Hj Hne. unfold board_read.
  rewrite list_lookup_insert_ne by lia. reflexivity.
Qed.

(** ** The ray of a direction *)

Lemma ray_S (dir : Direction) (row col : Z) (k : nat) :
  ray dir row col (S k) =
    ray dir (fst (GetNext row col dir)) (snd (GetNext row col dir)) k.
Proof. simpl. destruct (GetNext row col dir). reflexivity. Qed.

Lemma ray_index (dir : Direction) (row col : Z) (k : nat) :
  fst (ray dir row col k) * 8 + snd (ray dir row col k) =
    row * 8 + col + Z.of_nat k * index_step dir.
Proof.
  revert row col. induction k as [|k IH]; intros row col.
  - simpl. lia.
  - rewrite ray_S, IH, Nat2Z.inj_succ.
    destruct dir; unfold index_step, GetNext, kNumCols, fst, snd; lia.
Qed.

Lemma index_step_nonzero (dir : Direction) : index_step dir <> 0.
Proof. destruct dir; vm_compute; discriminate. Qed.

Lemma ray_index_distinct (dir : Direction) (row col : Z) (k : nat) :
  fst (ray dir row col (S k)) * 8 + snd (ray dir row col (S k)) <> row * 8 + col.
Proof.
  rewrite ray_index. pose proof (index_step_nonzero dir). nia.
Qed.

Lemma steps_left_OnBoard (dir : Direction) (row col : Z) :
  OnBoard row col = true -> 1 <= steps_left dir row col <= 8.
Proof.
  intros H%OnBoard_true. destruct dir; unfold steps_left, kNumRows, kNumCols; lia.
Qed.

Lemma steps_left_GetNext (dir : Direction) (row col : Z) :
  steps_left dir (fst (GetNext row col dir)) (snd (GetNext row col dir)) =
    steps_left dir row col - 1.
Proof. destruct dir; unfold steps_left; simpl; lia. Qed.

Lemma opposing_run_S (b : Board) (cell : CellState) (dir : Direction)
    (row col : Z) (n : nat) :
  opposing_run b cell dir row col (S n) <->
    OnBoard row col = true /\ opposing cell (BoardAt b row col) /\
    opposing_run b cell dir (fst (GetNext row col dir)) (snd (GetNext row col dir)) n.
Proof.
  unfold opposing_run. split.
  - intros H. destruct (H 0%nat ltac:(lia)) as [H0 H0'].
    repeat split; try assumption; rewrite <- ray_S; apply H; lia.
  - intros (H0 & H0' & Hn) [|k] Hk; [simpl; auto|].
    rewrite ray_S. apply Hn. lia.
Qed.

(** ** CountSteps *)

Section CountSteps_loop.
Variables (b : Board) (cell : CellState) (dir : Direction).

(** With fuel for the cells that are left the loop does not depend on
    the fuel. *)
Lemma CountSteps_loop_fuel (fuel fuel' : nat) (row col count : Z) :
  steps_left dir row col <= Z.of_nat fuel ->
  steps_left dir row col <= Z.of_nat fuel' ->
  CountSteps_loop fuel b cell dir row col count =
    CountSteps_loop fuel' b cell dir row col count.
Proof.
  revert fuel' row col count.
  induction fuel as [|fuel IH]; intros fuel' row col count Hf Hf'.
  - destruct fuel'; simpl; destruct (OnBoard row col) eqn:Hon; try reflexivity;
      apply (steps_left_OnBoard dir) in Hon; lia.
  - destruct fuel' as [|fuel']; simpl; destruct (OnBoard row col) eqn:Hon;
      try reflexivity.
    + apply (steps_left_OnBoard dir) in Hon. lia.
    + destruct (BoardAt b row col) as [here|e]; simpl; [|reflexivity].
      destruct (CellState_eqb here cell); [reflexivity|].
      destruct (CellState_eqb here kEmpty); [reflexivity|].
      pose proof (steps_left_GetNext dir row col) as Hnext.
      destruct (GetNext row col dir) as [row' col']. simpl in Hnext.
      apply IH; lia.
Qed.

Lemma CountSteps_loop_off (fuel : nat) (row col count : Z) :
  OnBoard row col = false ->
  CountSteps_loop fuel b cell dir row col count = Ok 0.
Proof. intros H. destruct fuel; simpl; rewrite H; reflexivity. Qed.

Lemma CountSteps_loop_own (fuel : nat) (row col count : Z) :
  steps_left dir row col <= Z.of_nat fuel ->
  OnBoard row col = true -> BoardAt b row col = Ok cell ->
  CountSteps_loop fuel b cell dir row col count = Ok count.
Proof.
  intros Hf Hon Hcell. pose proof (steps_left_OnBoard dir _ _ Hon).
  destruct fuel as [|fuel]; [lia|]. simpl.
  rewrite Hon, Hcell. simpl. rewrite CellState_eqb_refl. reflexivity.
Qed.

Lemma CountSteps_loop_empty (fuel : nat) (row col count : Z) :
  steps_left dir row col <= Z.of_nat fuel -> cell <> kEmpty ->
  OnBoard row col = true -> BoardAt b row col = Ok kEmpty ->
  CountSteps_loop fuel b cell dir row col count = Ok 0.
Proof.
  intros Hf Hne Hon Hcell. pose proof (steps_left_OnBoard dir _ _ Hon).
  destruct fuel as [|fuel]; [lia|]. simpl.
  rewrite Hon, Hcell. simpl.
  replace (CellState_eqb kEmpty cell) with false
    by (symmetry; apply CellState_eqb_neq; congruence).
  reflexivity.
Qed.

(** Over a run of [n] cells of the opponent the loop counts [n]. *)
Lemma CountSteps_loop_run (n fuel : nat) (row col count : Z) :
  steps_left dir row col <= Z.of_nat fuel ->
  opposing_run b cell dir row col n ->
  CountSteps_loop fuel b cell dir row col count =
    CountSteps_loop (fuel - n) b cell dir
      (fst (ray dir row col n)) (snd (ray dir row col n))
      (count + Z.of_nat n) /\
  steps_left dir (fst (ray dir row col n)) (snd (ray dir row col n))
    <= Z.of_nat (fuel - n).
Proof.
  revert fuel row col count.
  induction n as [|n IH]; intros fuel row col count Hf Hrun.
  - simpl. rewrite Nat.sub_0_r, Z.add_0_r. split; [reflexivity | exact Hf].
  - apply opposing_run_S in Hrun as (Hon & (here & Hhere & Hne & Hne0) & Hrun).
    pose proof (steps_left_OnBoard dir _ _ Hon).
    destruct fuel as [|fuel]; [lia|].
    pose proof (steps_left_GetNext dir row col) as Hnext.
    rewrite ray_S. cbn [CountSteps_loop]. rewrite Hon, Hhere. simpl bind.
    apply CellState_eqb_neq in Hne, Hne0. rewrite Hne, Hne0.
    destruct (GetNext row col dir) as [row' col']. simpl in Hnext, Hrun |- *.
    destruct (IH fuel row' col' (count + 1) ltac:(lia) Hrun) as [IH1 IH2].
    rewrite IH1. split; [f_equal; lia | exact IH2].
Qed.

(** A positive result comes from a run of the opponent's cells closed
    by a cell of the player's own colour. *)
Lemma CountSteps_loop_positive (fuel : nat) (row col count steps : Z) :
  CountSteps_loop fuel b cell dir row col count = Ok steps ->
  0 <= count -> steps <> 0 ->
  exists n : nat,
    steps = count + Z.of_nat n /\
    opposing_run b cell dir row col n /\
    OnBoard (fst (ray dir row col n)) (snd (ray dir row col n)) = true /\
    BoardAt b (fst (ray dir row col n)) (snd (ray dir row col n)) = Ok cell.
Proof.
  revert row col count.
  induction fuel as [|fuel IH]; intros row col count Hloop Hcount Hsteps;
    simpl in Hloop; destruct (OnBoard row col) eqn:Hon; try congruence.
  destruct (BoardAt b row col) as [here|e] eqn:Hhere; simpl in Hloop; [|discriminate].
  destruct (CellState_eqb here cell) eqn:Hown.
  { apply CellState_eqb_eq in Hown as ->. injection Hloop as <-.
    exists 0%nat. cbn [ray fst snd].
    split; [lia | split; [intros k Hk; lia | split; assumption]]. }
  destruct (CellState_eqb here kEmpty) eqn:Hempty; [congruence|].
  destruct (GetNext row col dir) as [row' col'] eqn:Hnext.
  destruct (IH row' col' (count + 1) Hloop ltac:(lia) Hsteps)
    as (n & Hn & Hrun & Hon' & Hcell').
  exists (S n). rewrite ray_S, Hnext. simpl fst; simpl snd.
  split; [lia | split; [| split; assumption]].
  apply opposing_run_S. rewrite Hnext. simpl fst; simpl snd.
  split; [assumption | split; [| assumption]].
  exists here. apply CellState_eqb_neq in Hown, Hempty. auto.
Qed.

Lemma CountSteps_loop_total (fuel : nat) (row col count : Z) :
  length b = 64%nat ->
  steps_left dir row col <= Z.of_nat fuel ->
  exists steps, CountSteps_loop fuel b cell dir row col count = Ok steps.
Proof.
  intros Hlen. revert row col count.
  induction fuel as [|fuel IH]; intros row col count Hf; simpl;
    destruct (OnBoard row col) eqn:Hon; eauto.
  - apply (steps_left_OnBoard dir) in Hon. lia.
  - destruct (BoardAt_total b row col Hlen Hon) as [here ->]. simpl.
    destruct (CellState_eqb here cell); [eauto|].
    destruct (CellState_eqb here kEmpty); [eauto|].
    pose proof (steps_left_GetNext dir row col) as Hnext.
    destruct (GetNext row col dir) as [row' col']. simpl in Hnext.
    apply IH. lia.
Qed.
End CountSteps_loop.

Lemma walk_1 (move : Z) (dir : Direction) :
  0 <= move < 64 ->
  walk move dir 1 = GetNext (move / 8) (move mod 8) dir.
Proof.
  intros H. unfold walk, kNumRows, kNumCols.
  rewrite Z.quot_div_nonneg, Z.rem_mod_nonneg by lia.
  cbn [ray]. destruct (GetNext _ _ dir). reflexivity.
Qed.

Lemma walk_S (move : Z) (dir : Direction) (k : nat) :
  walk move dir (S k) =
    ray dir (fst (walk move dir 1)) (snd (walk move dir 1)) k.
Proof.
  unfold walk. rewrite ray_S. cbn [ray].
  destruct (GetNext _ _ dir). reflexivity.
Qed.

Lemma walk_start_steps_left (move : Z) (dir : Direction) :
  0 <= move < 64 ->
  steps_left dir (fst (walk move dir 1)) (snd (walk move dir 1))
    <= Z.of_nat (Z.to_nat kNumRows).
Proof.
  intros H. rewrite walk_1 by exact H.
  pose proof (steps_left_OnBoard dir _ _ (RowColFromMove_OnBoard move H)).
  pose proof (steps_left_GetNext dir (move / 8) (move mod 8)) as Hnext.
  unfold kNumRows. lia.
Qed.

Lemma CountSteps_unfold (b : Board) (player : Player) (cell : CellState)
    (move : Z) (dir : Direction) :
  0 <= move < 64 -> PlayerToState player = Ok cell ->
  CountSteps b player move dir =
    CountSteps_loop (Z.to_nat kNumRows) b cell dir
      (fst (walk move dir 1)) (snd (walk move dir 1)) 0.
Proof.
  intros Hmove Hcell. unfold CountSteps.
  rewrite walk_1, RowColFromMove_Ok by exact Hmove. cbn [bind].
  destruct (GetNext _ _ dir). rewrite Hcell. reflexivity.
Qed.

Lemma CountSteps_Ok_inv (b : Board) (player : Player) (move : Z)
    (dir : Direction) (steps : Z) :
  CountSteps b player move dir = Ok steps ->
  0 <= move < 64 /\ exists cell, PlayerToState player = Ok cell.
Proof.
  unfold CountSteps. intros ([row col] & Hrc & H)%bind_Ok. split.
  - unfold RowColFromMove, kNumCells, kNumRows, kNumCols in Hrc.
    destruct ((move <? 0) || (move >=? 8 * 8)) eqn:E; [discriminate | lia].
  - destruct (GetNext row col dir). apply bind_Ok in H as (cell & Hcell & _).
    eauto.
Qed.

Lemma CountSteps_total (b : Board) (player : Player) (move : Z) (dir : Direction) :
  length b = 64%nat -> valid_player player -> 0 <= move < 64 ->
  exists steps, CountSteps b player move dir = Ok steps.
Proof.
  intros Hlen Hp Hmove.
  assert (exists cell, PlayerToState player = Ok cell) as [cell Hcell]
    by (destruct Hp as [-> | ->]; simpl; eauto).
  rewrite (CountSteps_unfold b player cell) by assumption.
  apply CountSteps_loop_total; [exact Hlen | apply walk_start_steps_left; exact Hmove].
Qed.

(** The run of opponent cells that a walk sees, seen from its first cell. *)
Lemma walk_opposing_run (b : Board) (cell : CellState) (move : Z)
    (dir : Direction) (n : nat) :
  (forall k, (1 <= k <= n)%nat ->
     walk_on_board move dir k = true /\ opposing cell (walk_cell b move dir k)) <->
  opposing_run b cell dir (fst (walk move dir 1)) (snd (walk move dir 1)) n.
Proof.
  unfold opposing_run, walk_on_board, walk_cell. split.
  - intros H k Hk. rewrite <- walk_S. apply H. lia.
  - intros H k Hk. destruct k as [|k]; [lia|]. rewrite walk_S. apply H. lia.
Qed.

(** C2 (amended). [CountSteps(player, move, direction)], for a move on
    the board, walks from the cell adjacent to the move.  When the [n]
    cells it meets first are on the board and hold the opponent's colour,
    it returns [n] if the next cell is on the board and holds the
    player's own colour (so 0 when that cell is the adjacent one), 0 if
    the next cell is on the board and empty, and 0 if the next cell is
    off the board. *)
Theorem CountSteps_walk (b : Board) (player : Player) (cell : CellState)
    (move : Z) (dir : Direction) (n : nat) :
  0 <= move < 64 ->
  PlayerToState player = Ok cell ->
  (forall k, (1 <= k <= n)%nat ->
     walk_on_board move dir k = true /\ opposing cell (walk_cell b move dir k)) ->
  (walk_on_board move dir (S n) = true ->
   walk_cell b move dir (S n) = Ok cell ->
   CountSteps b player move dir = Ok (Z.of_nat n)) /\
  (walk_on_board move dir (S n) = true ->
   walk_cell b move dir (S n) = Ok kEmpty ->
   CountSteps b player move dir = Ok 0) /\
  (walk_on_board move dir (S n) = false ->
   CountSteps b player move dir = Ok 0).
Proof.
  intros Hmove Hcell Hrun. apply walk_opposing_run in Hrun.
  rewrite (CountSteps_unfold b player cell) by assumption.
  destruct (CountSteps_loop_run b cell dir n _ _ _ 0
              (walk_start_steps_left move dir Hmove) Hrun) as [-> Hfuel].
  unfold walk_on_board, walk_cell. rewrite walk_S. simpl (0 + _).
  split; [|split].
  - intros Hon Hown. apply CountSteps_loop_own; assumption.
  - intros Hon Hempty. apply CountSteps_loop_empty; try assumption.
    apply (PlayerToState_not_empty player). exact Hcell.
  - intros Hoff. apply CountSteps_loop_off. exact Hoff.
Qed.

(** From the opening position, Black counting from cell 19 downwards:
    one white cell, then a black one. *)
Lemma CountSteps_walk_witness :
  CountSteps (board_ NewInitialState) 0 19 kDown = Ok 1.
Proof.
  refine (proj1 (CountSteps_walk (board_ NewInitialState) 0 kBlack 19 kDown 1
                   ltac:(lia) eq_refl _) eq_refl eq_refl).
  intros k Hk. assert (k = 1%nat) as -> by lia.
  split; [reflexivity|]. exists kWhite. repeat split; discriminate.
Defined.

(** C2, as stated, fails: in the opening position the walk of Black from
    cell 20 downwards reaches a black cell at once, and the value
    returned on reaching the own colour is 0, not a non-zero length. *)
Lemma CountSteps_own_colour_zero :
  PlayerToState 0 = Ok kBlack /\
  walk_on_board 20 kDown 1 = true /\
  walk_cell (board_ NewInitialState) 20 kDown 1 = Ok kBlack /\
  ~ (exists steps,
       CountSteps (board_ NewInitialState) 0 20 kDown = Ok steps /\ steps <> 0).
Proof.
  repeat split. intros (steps & Hsteps & Hne).
  vm_compute in Hsteps. congruence.
Qed.

(** ** Capture *)

Lemma BoardAt_index (b : Board) (row col : Z) :
  BoardAt b row col = board_read b (row * 8 + col).
Proof. reflexivity. Qed.

Lemma Capture_loop_run (cell : CellState) (dir : Direction) (n : nat) :
  forall (b : Board) (row col : Z),
  length b = 64%nat ->
  opposing_run b cell dir row col n ->
  exists b',
    Capture_loop n b cell dir row col = Ok b' /\
    length b' = 64%nat /\
    (forall k, (k < n)%nat ->
       BoardAt b' (fst (ray dir row col k)) (snd (ray dir row col k)) = Ok cell) /\
    (forall i, 0 <= i ->
       (forall k, (k < n)%nat ->
          i <> fst (ray dir row col k) * 8 + snd (ray dir row col k)) ->
       board_read b' i = board_read b i).
Proof.
  induction n as [|n IH]; intros b row col Hlen Hrun.
  { exists b. simpl. repeat split; [assumption | intros; lia]. }
  pose proof Hrun as Hrun0.
  apply opposing_run_S in Hrun as (Hon & (here & Hhere & Hne & Hne0) & Hrun).
  pose proof Hon as Hrange%OnBoard_true.
  assert (Hidx : 0 <= row * 8 + col < Z.of_nat (length b)) by lia.
  set (b1 := <[Z.to_nat (row * 8 + col) := cell]> b).
  assert (Hlen1 : length b1 = 64%nat) by (unfold b1; rewrite length_insert; exact Hlen).
  assert (Hrun1 : opposing_run b1 cell dir
                    (fst (GetNext row col dir)) (snd (GetNext row col dir)) n).
  { intros k Hk. destruct (Hrun k Hk) as [Hon' Hopp]. split; [exact Hon'|].
    rewrite BoardAt_index in Hopp |- *. unfold b1.
    rewrite board_read_insert_ne; [exact Hopp | lia | |].
    - apply OnBoard_true in Hon'. lia.
    - rewrite <- ray_S. apply not_eq_sym, ray_index_distinct. }
  destruct (IH b1 _ _ Hlen1 Hrun1) as (b' & Hloop & Hlen' & Hflip & Hframe).
  exists b'. split; [|split; [exact Hlen'|split]].
  - cbn [Capture_loop]. rewrite Hhere. simpl bind.
    apply CellState_eqb_neq in Hne, Hne0. rewrite Hne, Hne0. simpl orb.
    rewrite (RowColToMove_OnBoard _ _ Hon). simpl bind.
    rewrite (board_write_Ok _ _ _ Hidx). simpl bind. fold b1.
    destruct (GetNext row col dir). exact Hloop.
  - intros [|k] Hk.
    + cbn [ray fst snd]. rewrite BoardAt_index, Hframe; [|lia|].
      * unfold b1. apply board_read_insert_eq. exact Hidx.
      * intros k' _. rewrite <- ray_S. apply not_eq_sym, ray_index_distinct.
    + rewrite ray_S. apply Hflip. lia.
  - intros i Hi Hother. rewrite Hframe.
    + unfold b1. apply board_read_insert_ne; [lia | exact Hi |].
      apply not_eq_sym. apply (Hother 0%nat). lia.
    + exact Hi.
    + intros k Hk. rewrite <- ray_S. apply Hother. lia.
Qed.

(** The cells that [CountSteps] counted are a run of the opponent. *)
Lemma CountSteps_positive (b : Board) (player : Player) (cell : CellState)
    (move : Z) (dir : Direction) (steps : Z) :
  PlayerToState player = Ok cell ->
  CountSteps b player move dir = Ok steps -> steps <> 0 ->
  0 < steps /\
  opposing_run b cell dir (fst (walk move dir 1)) (snd (walk move dir 1))
    (Z.to_nat steps).
Proof.
  intros Hcell Hcount Hsteps.
  destruct (CountSteps_Ok_inv _ _ _ _ _ Hcount) as [Hmove _].
  rewrite (CountSteps_unfold b player cell) in Hcount by assumption.
  destruct (CountSteps_loop_positive _ _ _ _ _ _ _ _ Hcount ltac:(lia) Hsteps)
    as (n & -> & Hrun & _).
  rewrite Z.add_0_l in *. rewrite Nat2Z.id. split; [lia | exact Hrun].
Qed.

Lemma Capture_unfold (b : Board) (player : Player) (cell : CellState)
    (move : Z) (dir : Direction) (steps : Z) :
  0 <= move < 64 -> PlayerToState player = Ok cell ->
  Capture b player move dir steps =
    Capture_loop (Z.to_nat steps) b cell dir
      (fst (walk move dir 1)) (snd (walk move dir 1)).
Proof.
  intros Hmove Hcell. unfold Capture.
  rewrite walk_1, RowColFromMove_Ok by exact Hmove. cbn [bind].
  destruct (GetNext _ _ dir). rewrite Hcell. reflexivity.
Qed.

(** What [DoApplyAction] relies on: a capture over the count just
    computed succeeds and leaves a board of 64 cells. *)
Lemma Capture_counted (b : Board) (player : Player) (move : Z)
    (dir : Direction) (steps : Z) :
  length b = 64%nat ->
  CountSteps b player move dir = Ok steps -> steps <> 0 ->
  exists b', Capture b player move dir steps = Ok b' /\ length b' = 64%nat.
Proof.
  intros Hlen Hcount Hsteps.
  destruct (CountSteps_Ok_inv _ _ _ _ _ Hcount) as [Hmove [cell Hcell]].
  destruct (CountSteps_positive _ _ _ _ _ _ Hcell Hcount Hsteps) as [_ Hrun].
  destruct (Capture_loop_run cell dir _ b _ _ Hlen Hrun) as (b' & Hcap & Hlen' & _).
  exists b'. rewrite (Capture_unfold b player cell) by assumption. auto.
Qed.

(** C4. When [steps] is the value that [CountSteps(player, move,
    direction)] returns on the board at hand and [steps > 0], then
    [Capture(player, move, direction, steps)] on that board returns
    without reaching its fatal error: each of the [steps] cells it visits
    is on the board and holds the opponent's colour (neither empty nor
    the player's colour) before, and the player's colour after.  This
    holds whatever the cell of the move holds, so in particular once the
    player's piece is placed there. *)
Theorem Capture_after_CountSteps (b : Board) (player : Player)
    (cell : CellState) (move : Z) (dir : Direction) (steps : Z) :
  length b = 64%nat ->
  PlayerToState player = Ok cell ->
  CountSteps b player move dir = Ok steps ->
  steps > 0 ->
  exists b',
    Capture b player move dir steps = Ok b' /\
    forall k, (1 <= k <= Z.to_nat steps)%nat ->
      walk_on_board move dir k = true /\
      opposing cell (walk_cell b move dir k) /\
      walk_cell b' move dir k = Ok cell.
Proof.
  intros Hlen Hcell Hcount Hsteps.
  destruct (CountSteps_Ok_inv _ _ _ _ _ Hcount) as [Hmove _].
  destruct (CountSteps_positive _ _ _ _ _ _ Hcell Hcount ltac:(lia)) as [_ Hrun].
  destruct (Capture_loop_run cell dir _ b _ _ Hlen Hrun) as (b' & Hcap & _ & Hflip & _).
  exists b'. rewrite (Capture_unfold b player cell) by assumption.
  split; [exact Hcap|]. intros k Hk.
  destruct (proj2 (walk_opposing_run b cell move dir _) Hrun k Hk) as [Hon Hopp].
  split; [exact Hon | split; [exact Hopp|]].
  destruct k as [|k]; [lia|]. unfold walk_cell. rewrite walk_S. apply Hflip. lia.
Qed.

(** Black has just been placed on cell 19 of the opening position; the
    count downwards is 1 and the capture flips the white cell 27. *)
Lemma Capture_after_CountSteps_witness :
  exists b',
    Capture (<[19%nat := kBlack]> (board_ NewInitialState)) 0 19 kDown 1 = Ok b' /\
    forall k, (1 <= k <= Z.to_nat 1)%nat ->
      walk_on_board 19 kDown k = true /\
      opposing kBlack
        (walk_cell (<[19%nat := kBlack]> (board_ NewInitialState)) 19 kDown k) /\
      walk_cell b' 19 kDown k = Ok kBlack.
Proof.
  apply (Capture_after_CountSteps
           (<[19%nat := kBlack]> (board_ NewInitialState)) 0 kBlack 19 kDown 1);
    [reflexivity | reflexivity | reflexivity | lia].
Defined.

(** ** Counted loops *)

(** A loop invariant: when every iteration returns and keeps the
    invariant, so does the loop. *)
Lemma for_loop_total {St : Type} (P : Z -> St -> Prop)
    (body : Z -> St -> result St) (n : nat) :
  forall (i : Z) (s : St),
  P i s ->
  (forall j t, i <= j < i + Z.of_nat n -> P j t ->
     exists t', body j t = Ok t' /\ P (j + 1) t') ->
  exists s', for_loop n i body s = Ok s' /\ P (i + Z.of_nat n) s'.
Proof.
  induction n as [|n IH]; intros i s Hs Hbody.
  - exists s. simpl. rewrite Z.add_0_r. auto.
  - destruct (Hbody i s ltac:(lia) Hs) as (t & Ht & HPt).
    destruct (IH (i + 1) t HPt) as (s' & Hs' & HPs').
    { intros j u Hj. apply Hbody. lia. }
    exists s'. simpl. rewrite Ht. simpl.
    replace (i + Z.of_nat (S n)) with (i + 1 + Z.of_nat n) by lia. auto.
Qed.

(** The same for a loop that is known to return. *)
Lemma for_loop_Ok {St : Type} (P : Z -> St -> Prop)
    (body : Z -> St -> result St) (n : nat) :
  forall (i : Z) (s s' : St),
  P i s ->
  (forall j t t', i <= j < i + Z.of_nat n -> P j t ->
     body j t = Ok t' -> P (j + 1) t') ->
  for_loop n i body s = Ok s' -> P (i + Z.of_nat n) s'.
Proof.
  induction n as [|n IH]; intros i s s' Hs Hbody Hloop.
  - simpl in Hloop. injection Hloop as <-. rewrite Z.add_0_r. exact Hs.
  - simpl in Hloop. apply bind_Ok in Hloop as (t & Ht & Hloop).
    replace (i + Z.of_nat (S n)) with (i + 1 + Z.of_nat n) by lia.
    apply (IH (i + 1) t s'); [| |exact Hloop].
    + apply (Hbody i s t); [lia | exact Hs | exact Ht].
    + intros j u u' Hj. apply Hbody. lia.
Qed.

(** ** Legal moves *)

Lemma valid_player_PlayerToState (player : Player) :
  valid_player player <-> exists cell, PlayerToState player = Ok cell.
Proof.
  split.
  - intros [-> | ->]; simpl; eauto.
  - intros [cell [[-> _]|[-> _]]%PlayerToState_Ok]; [left | right]; reflexivity.
Qed.

Lemma CanCapture_loop_total (b : Board) (player : Player) (move : Z)
    (dirs : list Direction) :
  length b = 64%nat -> valid_player player -> 0 <= move < 64 ->
  exists v, CanCapture_loop b player move dirs = Ok v.
Proof.
  intros Hlen Hp Hmove. induction dirs as [|dir dirs IH]; simpl; [eauto|].
  destruct (CountSteps_total b player move dir Hlen Hp Hmove) as [steps ->].
  simpl. destruct (negb (steps =? 0)); eauto.
Qed.

Lemma CanCapture_loop_true (b : Board) (player : Player) (move : Z)
    (dirs : list Direction) :
  CanCapture_loop b player move dirs = Ok true <->
  exists done dir rest steps,
    dirs = done ++ dir :: rest /\
    Forall (fun d => CountSteps b player move d = Ok 0) done /\
    CountSteps b player move dir = Ok steps /\ steps <> 0.
Proof.
  induction dirs as [|d dirs IH]; simpl.
  - split; [discriminate|]. intros (done & dir & rest & steps & H & _).
    destruct done; discriminate.
  - split.
    + intros (steps & Hsteps & H)%bind_Ok.
      destruct (steps =? 0) eqn:Hz; simpl in H.
      * apply Z.eqb_eq in Hz as ->.
        apply IH in H as (done & dir & rest & steps' & -> & Hdone & Hdir).
        exists (d :: done), dir, rest, steps'. repeat split; try tauto.
        constructor; assumption.
      * exists [], d, dirs, steps. apply Z.eqb_neq in Hz.
        repeat split; try assumption. constructor.
    + intros (done & dir & rest & steps & Heq & Hdone & Hdir & Hne).
      destruct done as [|d' done]; simpl in Heq; injection Heq as -> ->.
      * rewrite Hdir. simpl. apply Z.eqb_neq in Hne. rewrite Hne. reflexivity.
      * apply Forall_cons_iff in Hdone as [-> Hdone]. simpl. apply IH.
        exists done, dir, rest, steps. auto.
Qed.

Lemma ValidAction_total (b : Board) (player : Player) (move : Z) :
  length b = 64%nat -> valid_player player -> 0 <= move < 64 ->
  exists v, ValidAction b player move = Ok v.
Proof.
  intros Hlen Hp Hmove. unfold ValidAction, CanCapture.
  destruct (board_read_total b move ltac:(lia)) as [here ->]. cbn [bind].
  destruct (CellState_eqb here kEmpty); cbn [negb]; [|eauto].
  apply CanCapture_loop_total; assumption.
Qed.

(** A valid action is an empty cell from which some direction has a
    non-zero count. *)
Lemma ValidAction_true (b : Board) (player : Player) (move : Z) :
  ValidAction b player move = Ok true <->
  board_read b move = Ok kEmpty /\ CanCapture b player move = Ok true.
Proof.
  unfold ValidAction. split.
  - intros (here & Hhere & H)%bind_Ok.
    destruct (CellState_eqb here kEmpty) eqn:He; [|discriminate].
    apply CellState_eqb_eq in He as ->. auto.
  - intros [-> H]. exact H.
Qed.

Lemma CanCapture_true (b : Board) (player : Player) (move : Z) :
  CanCapture b player move = Ok true ->
  board_read b move = Ok kEmpty /\
  exists dir steps, CountSteps b player move dir = Ok steps /\ steps <> 0.
Proof.
  unfold CanCapture. intros (here & Hhere & H)%bind_Ok.
  destruct (CellState_eqb here kEmpty) eqn:He; [|discriminate].
  apply CellState_eqb_eq in He as ->. cbn [negb] in H. split; [exact Hhere|].
  apply CanCapture_loop_true in H as (_ & dir & _ & steps & _ & _ & Hdir).
  eauto.
Qed.

Lemma StronglySorted_snoc (l : list Z) (x : Z) :
  StronglySorted Z.lt l -> (forall y, In y l -> y < x) ->
  StronglySorted Z.lt (l ++ [x]).
Proof.
  induction 1 as [|a l Hl IH Ha]; intros Hx; simpl.
  - constructor; constructor.
  - constructor.
    + apply IH. intros y Hy. apply Hx. right. exact Hy.
    + apply Forall_app. split; [exact Ha|].
      constructor; [apply Hx; left; reflexivity | constructor].
Qed.

Lemma regular_upto_step (b : Board) (p : Player) (j : Z) (moves : list Z)
    (valid : bool) :
  0 <= j ->
  regular_upto b p j moves -> ValidAction b p j = Ok valid ->
  regular_upto b p (j + 1) (if valid then moves ++ [j] else moves).
Proof.
  intros Hj [Hsorted Hin] Hvalid. destruct valid; split.
  - apply StronglySorted_snoc; [exact Hsorted|].
    intros y Hy. apply Hin in Hy. lia.
  - intros cell. rewrite in_app_iff, Hin. simpl. split.
    + intros [[H1 H2]|[<-|[]]]; [split; [lia | exact H2]|].
      split; [lia | exact Hvalid].
    + intros [H1 H2]. destruct (Z.eq_dec cell j) as [->|Hne]; [tauto|].
      left. split; [lia | exact H2].
  - exact Hsorted.
  - intros cell. rewrite Hin. split; [intros [H1 H2]; split; [lia | exact H2]|].
    intros [H1 H2]. split; [|exact H2].
    destruct (Z.eq_dec cell j) as [->|Hne]; [congruence | lia].
Qed.

Lemma regular_upto_0 (b : Board) (p : Player) : regular_upto b p 0 [].
Proof.
  split; [constructor|]. intros cell. simpl. split; [tauto | lia].
Qed.

(** On a board of 64 cells and for a valid player the enumeration
    returns. *)
Lemma LegalRegularActions_total (b : Board) (p : Player) :
  length b = 64%nat -> valid_player p ->
  exists moves, LegalRegularActions b p = Ok moves /\ regular_upto b p 64 moves.
Proof.
  intros Hlen Hp. unfold LegalRegularActions.
  apply (for_loop_total (regular_upto b p) _ (Z.to_nat kNumCells) 0 []).
  - apply regular_upto_0.
  - intros j moves Hj Hmoves.
    destruct (ValidAction_total b p j Hlen Hp) as [valid Hvalid];
      [unfold kNumCells, kNumRows, kNumCols in Hj; lia|].
    rewrite Hvalid. cbn [bind]. eexists. split; [reflexivity|].
    apply regular_upto_step; [lia | assumption ..].
Qed.

(** Whenever the enumeration returns, it returns the valid actions. *)
Lemma LegalRegularActions_Ok (b : Board) (p : Player) (moves : list Z) :
  LegalRegularActions b p = Ok moves -> regular_upto b p 64 moves.
Proof.
  unfold LegalRegularActions. intros H.
  refine (for_loop_Ok (regular_upto b p) _ _ 0 [] moves _ _ H);
    [apply regular_upto_0|].
  intros j t t' Hj Ht (valid & Hvalid & [= <-])%bind_Ok.
  apply regular_upto_step; [lia | assumption ..].
Qed.

Lemma is_empty_true {A : Type} (l : list A) : is_empty l = true <-> l = [].
Proof. destruct l; simpl; split; congruence. Qed.

(** C5. In a terminal state [LegalActions] returns the empty list.  In
    any other state it returns the list of the cells of [0, 64) that are
    empty and for which [CanCapture] is true for the current player, in
    increasing order, unless there is no such cell, in which case it
    returns the list that holds the Pass action alone. *)
Theorem LegalActions_spec (s : OthelloState) :
  length (board_ s) = 64%nat ->
  valid_player (current_player_ s) ->
  (IsTerminal s = true -> LegalActions s = Ok []) /\
  (IsTerminal s = false ->
   exists regular,
     LegalRegularActions (board_ s) (current_player_ s) = Ok regular /\
     StronglySorted Z.lt regular /\
     (forall cell,
        In cell regular <->
        0 <= cell < 64 /\
        board_read (board_ s) cell = Ok kEmpty /\
        CanCapture (board_ s) (current_player_ s) cell = Ok true) /\
     LegalActions s = Ok (if is_empty regular then [kPassMove] else regular)).
Proof.
  intros Hlen Hp. unfold LegalActions. split; intros Hterm; rewrite Hterm.
  - reflexivity.
  - destruct (LegalRegularActions_total _ _ Hlen Hp) as (regular & Hreg & Hsorted & Hin).
    exists regular. rewrite Hreg. cbn [bind].
    split; [reflexivity | split; [exact Hsorted | split]].
    + intros cell. rewrite Hin, ValidAction_true. tauto.
    + destruct regular; reflexivity.
Qed.

(** The opening position: four regular moves for Black. *)
Lemma LegalActions_spec_witness :
  LegalActions NewInitialState = Ok [19; 26; 37; 44].
Proof.
  destruct (LegalActions_spec NewInitialState eq_refl (or_introl eq_refl))
    as [_ H].
  destruct (H eq_refl) as (regular & Hreg & _ & _ & Hlegal).
  vm_compute in Hreg. injection Hreg as <-. exact Hlegal.
Defined.

(** ** Applying a regular move *)

Lemma DoApplyAction_captures_total (player : Player) (move : Z)
    (dirs : list Direction) :
  forall b : Board,
  length b = 64%nat -> valid_player player -> 0 <= move < 64 ->
  exists b', DoApplyAction_captures b player move dirs = Ok b' /\
             length b' = 64%nat.
Proof.
  induction dirs as [|dir dirs IH]; intros b Hlen Hp Hmove; cbn [DoApplyAction_captures].
  - eauto.
  - destruct (CountSteps_total b player move dir Hlen Hp Hmove) as [steps Hsteps].
    rewrite Hsteps. cbn [bind].
    destruct (steps >? 0) eqn:Hpos.
    + destruct (Capture_counted b player move dir steps Hlen Hsteps ltac:(lia))
        as (b1 & -> & Hlen1).
      cbn [bind]. apply IH; assumption.
    + cbn [bind]. apply IH; assumption.
Qed.

Lemma DoApplyAction_board_total (b : Board) (player : Player) (move : Z) :
  length b = 64%nat -> valid_player player -> 0 <= move < 64 ->
  exists b', DoApplyAction_board b player move = Ok b' /\ length b' = 64%nat.
Proof.
  intros Hlen Hp Hmove. unfold DoApplyAction_board.
  destruct (proj1 (valid_player_PlayerToState player) Hp) as [cell ->].
  cbn [bind]. rewrite board_write_Ok by lia. cbn [bind].
  apply DoApplyAction_captures_total; try assumption.
  rewrite length_insert. exact Hlen.
Qed.

Lemma NoValidActions_total (b : Board) :
  length b = 64%nat -> exists ended, NoValidActions b = Ok ended.
Proof.
  intros Hlen. unfold NoValidActions.
  destruct (LegalRegularActions_total b 0 Hlen (or_introl eq_refl)) as (m0 & -> & _).
  destruct (LegalRegularActions_total b 1 Hlen (or_intror eq_refl)) as (m1 & -> & _).
  cbn [bind]. destruct (is_empty m0); eauto.
Qed.

(** [NoValidActions]: neither player has a regular move. *)
Lemma NoValidActions_true (b : Board) :
  length b = 64%nat ->
  (NoValidActions b = Ok true <->
   LegalRegularActions b 0 = Ok [] /\ LegalRegularActions b 1 = Ok []).
Proof.
  intros Hlen. unfold NoValidActions.
  destruct (LegalRegularActions_total b 0 Hlen (or_introl eq_refl)) as (m0 & -> & _).
  destruct (LegalRegularActions_total b 1 Hlen (or_intror eq_refl)) as (m1 & -> & _).
  cbn [bind]. destruct m0, m1; simpl; intuition congruence.
Qed.

Lemma ValidAction_true_inv (b : Board) (player : Player) (move : Z) :
  length b = 64%nat -> ValidAction b player move = Ok true ->
  0 <= move < 64 /\ valid_player player /\ move <> kPassMove.
Proof.
  intros Hlen [Hread Hcan]%ValidAction_true.
  apply board_read_range in Hread.
  apply CanCapture_true in Hcan as (_ & dir & steps & Hsteps & _).
  apply CountSteps_Ok_inv in Hsteps as [_ Hp%valid_player_PlayerToState].
  unfold kPassMove, kNumCells, kNumRows, kNumCols. repeat split; try assumption; lia.
Qed.

Lemma disks_snoc (l : Board) (here cell : CellState) :
  disks (l ++ [here]) cell =
    if CellState_eqb here cell then disks l cell + 1 else disks l cell.
Proof.
  unfold disks. rewrite List.filter_app, length_app. simpl.
  destruct (CellState_eqb here cell); simpl; lia.
Qed.

(** [DiskCount] is the number of cells of the player's colour. *)
Lemma DiskCount_disks (b : Board) (player : Player) (cell : CellState) :
  length b = 64%nat -> PlayerToState player = Ok cell ->
  DiskCount b player = Ok (disks b cell).
Proof.
  intros Hlen Hcell. unfold DiskCount. rewrite Hcell. cbn [bind].
  destruct (for_loop_total
              (fun j count => 0 <= j <= 64 /\ count = disks (take (Z.to_nat j) b) cell)
              (fun i count =>
                 let* here := board_read b i in
                 Ok (if CellState_eqb here cell then count + 1 else count))
              (Z.to_nat kNumCells) 0 0) as (count & -> & _ & ->).
  - split; [lia | reflexivity].
  - intros j count Hj [_ ->].
    assert (Hj' : 0 <= j < 64) by (unfold kNumCells, kNumRows, kNumCols in Hj; lia).
    destruct (board_read_total b j ltac:(lia)) as [here Hhere].
    rewrite Hhere. cbn [bind]. eexists. split; [reflexivity|].
    split; [lia|].
    apply board_read_lookup in Hhere as [_ Hhere].
    rewrite Z2Nat.inj_add, Nat.add_1_r by lia.
    rewrite (take_S_r _ _ _ Hhere), disks_snoc. reflexivity.
  - rewrite take_ge; [reflexivity|].
    unfold kNumCells, kNumRows, kNumCols. lia.
Qed.

(** A valid action is applied without error; the state that results. *)
Lemma DoApplyAction_valid (s : OthelloState) (move : Z) :
  length (board_ s) = 64%nat ->
  ValidAction (board_ s) (current_player_ s) move = Ok true ->
  exists b ended,
    DoApplyAction_board (board_ s) (current_player_ s) move = Ok b /\
    length b = 64%nat /\
    NoValidActions b = Ok ended /\
    DoApplyAction s move =
      Ok (if ended
          then {| board_ := b;
                  current_player_ := current_player_ s;
                  outcome_ := if disks b kBlack >? disks b kWhite then 0
                              else if disks b kBlack <? disks b kWhite then 1
                              else kTerminalPlayerId |}
          else {| board_ := b;
                  current_player_ := 1 - current_player_ s;
                  outcome_ := outcome_ s |}).
Proof.
  intros Hlen Hvalid.
  destruct (ValidAction_true_inv _ _ _ Hlen Hvalid) as (Hmove & Hp & Hpass).
  destruct (DoApplyAction_board_total _ _ _ Hlen Hp Hmove) as (b & Hb & Hlenb).
  destruct (NoValidActions_total b Hlenb) as [ended Hended].
  exists b, ended. repeat split; try assumption.
  unfold DoApplyAction. apply Z.eqb_neq in Hpass. rewrite Hpass, Hvalid.
  cbn [bind negb]. rewrite Hb. cbn [bind]. rewrite Hended. cbn [bind].
  destruct ended; [|reflexivity].
  rewrite (DiskCount_disks b 0 kBlack Hlenb eq_refl).
  rewrite (DiskCount_disks b 1 kWhite Hlenb eq_refl). reflexivity.
Qed.

(** C1. For a state whose outcome is undecided and a regular move of the
    current player (an action that [ValidAction] accepts),
    [DoApplyAction] returns a state whose board is the board with the
    piece placed and all captures done.  If on that board neither player
    has a regular move ([NoValidActions]), the outcome is player 0 when
    player 0 holds strictly more discs, player 1 when player 1 holds
    strictly more, and the draw value when they hold as many; [Returns]
    is then [{1, -1}], [{-1, 1}] and [{0, 0}], and [IsTerminal] is true.
    Otherwise the outcome stays undecided and the current player is the
    other player. *)
Theorem DoApplyAction_end_of_game (s : OthelloState) (move : Z) :
  length (board_ s) = 64%nat ->
  IsTerminal s = false ->
  ValidAction (board_ s) (current_player_ s) move = Ok true ->
  exists s' ended,
    DoApplyAction s move = Ok s' /\
    DoApplyAction_board (board_ s) (current_player_ s) move = Ok (board_ s') /\
    NoValidActions (board_ s') = Ok ended /\
    (ended = true <->
       LegalRegularActions (board_ s') 0 = Ok [] /\
       LegalRegularActions (board_ s') 1 = Ok []) /\
    DiskCount (board_ s') 0 = Ok (disks (board_ s') kBlack) /\
    DiskCount (board_ s') 1 = Ok (disks (board_ s') kWhite) /\
    (ended = true ->
       IsTerminal s' = true /\
       (disks (board_ s') kBlack > disks (board_ s') kWhite ->
          outcome_ s' = 0 /\ Returns s' = [1%float; (-1)%float]) /\
       (disks (board_ s') kBlack < disks (board_ s') kWhite ->
          outcome_ s' = 1 /\ Returns s' = [(-1)%float; 1%float]) /\
       (disks (board_ s') kBlack = disks (board_ s') kWhite ->
          outcome_ s' = kTerminalPlayerId /\ Returns s' = [0%float; 0%float])) /\
    (ended = false ->
       outcome_ s' = kInvalidPlayer /\
       IsTerminal s' = false /\
       current_player_ s' = 1 - current_player_ s /\
       valid_player (current_player_ s') /\
       current_player_ s' <> current_player_ s).
Proof.
  intros Hlen Hterm Hvalid.
  destruct (DoApplyAction_valid s move Hlen Hvalid)
    as (b & ended & Hb & Hlenb & Hended & Happly).
  destruct (ValidAction_true_inv _ _ _ Hlen Hvalid) as (_ & Hp & _).
  eexists. exists ended. split; [exact Happly|].
  assert (Hundecided : outcome_ s = kInvalidPlayer).
  { unfold IsTerminal in Hterm. apply negb_false_iff, Z.eqb_eq in Hterm. exact Hterm. }
  destruct ended; cbn [board_ current_player_ outcome_].
  - split; [exact Hb | split; [exact Hended|]].
    split; [rewrite <- (NoValidActions_true b Hlenb), Hended; intuition congruence|].
    split; [apply DiskCount_disks; [exact Hlenb | reflexivity]|].
    split; [apply DiskCount_disks; [exact Hlenb | reflexivity]|].
    split; [|discriminate]. intros _.
    unfold IsTerminal, Returns. cbn [outcome_].
    destruct (disks b kBlack >? disks b kWhite) eqn:Hgt;
      [|destruct (disks b kBlack <? disks b kWhite) eqn:Hlt];
      (split; [reflexivity|]); repeat split; try lia; reflexivity.
  - split; [exact Hb | split; [exact Hended|]].
    split; [rewrite <- (NoValidActions_true b Hlenb), Hended; intuition congruence|].
    split; [apply DiskCount_disks; [exact Hlenb | reflexivity]|].
    split; [apply DiskCount_disks; [exact Hlenb | reflexivity]|].
    split; [discriminate|]. intros _.
    split; [exact Hundecided|]. split; [exact Hterm|].
    split; [reflexivity|]. unfold valid_player in *. lia.
Qed.

(** Black takes the last white disc: the game ends, Black has won. *)
Lemma DoApplyAction_end_of_game_witness :
  exists s',
    DoApplyAction LastMoveState 0 = Ok s' /\
    IsTerminal s' = true /\ outcome_ s' = 0 /\
    Returns s' = [1%float; (-1)%float].
Proof.
  destruct (DoApplyAction_end_of_game LastMoveState 0 eq_refl eq_refl eq_refl)
    as (s' & ended & Happly & _ & Hended & _ & _ & _ & Hend & _).
  exists s'. split; [exact Happly|].
  vm_compute in Happly. injection Happly as <-.
  vm_compute in Hended. injection Hended as <-.
  destruct (Hend eq_refl) as (Hterm & Hblack & _).
  destruct (Hblack ltac:(vm_compute; reflexivity)) as [Hout Hret].
  auto.
Defined.

(** C3. A move that [LegalActions] returns, other than Pass, is applied
    by [DoApplyAction] without error, and when it is applied its cell is
    empty and [CountSteps] is non-zero for the current player in at least
    one direction. *)
Theorem LegalActions_applicable (s : OthelloState) (moves : list Z) (move : Z) :
  length (board_ s) = 64%nat ->
  LegalActions s = Ok moves ->
  In move moves ->
  move <> kPassMove ->
  (exists s', DoApplyAction s move = Ok s') /\
  board_read (board_ s) move = Ok kEmpty /\
  (exists dir steps,
     CountSteps (board_ s) (current_player_ s) move dir = Ok steps /\
     steps <> 0).
Proof.
  intros Hlen Hlegal Hin Hpass. unfold LegalActions in Hlegal.
  destruct (IsTerminal s); [injection Hlegal as <-; destruct Hin|].
  apply bind_Ok in Hlegal as (regular & Hreg & [= <-]).
  assert (Hin' : In move regular).
  { destruct regular; simpl in Hin |- *; [|exact Hin].
    destruct Hin as [Hin|[]]. congruence. }
  apply LegalRegularActions_Ok in Hreg as [_ Hreg].
  apply Hreg in Hin' as [_ Hvalid].
  destruct (DoApplyAction_valid s move Hlen Hvalid) as (b & ended & _ & _ & _ & Happly).
  apply ValidAction_true in Hvalid as [Hempty Hcan].
  apply CanCapture_true in Hcan as [_ Hdir].
  split; [eexists; exact Happly | split; assumption].
Qed.

Lemma LegalActions_applicable_witness :
  (exists s', DoApplyAction NewInitialState 19 = Ok s') /\
  board_read (board_ NewInitialState) 19 = Ok kEmpty /\
  (exists dir steps,
     CountSteps (board_ NewInitialState) (current_player_ NewInitialState) 19 dir
       = Ok steps /\
     steps <> 0).
Proof.
  apply (LegalActions_applicable NewInitialState [19; 26; 37; 44] 19);
    [reflexivity | reflexivity | simpl; tauto | vm_compute; discriminate].
Defined.

(** ** The observation tensor *)

Lemma observed_channel_range (player : Player) (here : CellState) :
  0 <= observed_channel player here < 3.
Proof.
  unfold observed_channel. destruct (player =? 1), here; simpl; lia.
Qed.

(** The branches of the loop body write the observed channel. *)
Lemma ObservationTensor_body (player : Player) (here : CellState)
    (view : list float) (cell : Z) :
  (if player =? 1 then
     if CellState_to_int here =? 2 then TensorView_set kNumCells view 1 cell 1%float
     else if CellState_to_int here =? 1 then TensorView_set kNumCells view 2 cell 1%float
     else TensorView_set kNumCells view 0 cell 1%float
   else TensorView_set kNumCells view (CellState_to_int here) cell 1%float) =
  TensorView_set kNumCells view (observed_channel player here) cell 1%float.
Proof.
  unfold observed_channel. destruct (player =? 1), here; reflexivity.
Qed.

Lemma observed_upto_step (b : Board) (player : Player) (j : Z)
    (view : list float) (here : CellState) :
  0 <= j < 64 -> board_read b j = Ok here ->
  observed_upto b player j view ->
  exists view',
    TensorView_set kNumCells view (observed_channel player here) j 1%float
      = Ok view' /\
    observed_upto b player (j + 1) view'.
Proof.
  intros Hj Hhere [Hlen Hview].
  pose proof (observed_channel_range player here) as Hch.
  unfold TensorView_set, kNumCells, kNumRows, kNumCols.
  rewrite Hlen. change (Z.of_nat 192) with 192.
  replace ((0 <=? observed_channel player here * (8 * 8) + j) &&
           (observed_channel player here * (8 * 8) + j <? 192))
    with true by lia.
  eexists. split; [reflexivity|]. split; [rewrite length_insert; exact Hlen|].
  intros channel cell here' Hchannel Hcell Hhere'.
  unfold tensor_at, kNumCells, kNumRows, kNumCols.
  destruct (Z.eq_dec (channel * (8 * 8) + cell)
                     (observed_channel player here * (8 * 8) + j)) as [Heq|Hne].
  - assert (channel = observed_channel player here /\ cell = j) as [-> ->] by lia.
    rewrite list_lookup_insert_eq by lia.
    assert (here' = here) as -> by congruence.
    rewrite Z.eqb_refl. replace (j <? j + 1) with true by lia. reflexivity.
  - rewrite list_lookup_insert_ne by lia.
    specialize (Hview channel cell here' Hchannel Hcell Hhere').
    unfold tensor_at, kNumCells, kNumRows, kNumCols in Hview. rewrite Hview.
    destruct (Z.eq_dec cell j) as [->|Hcj].
    + assert (here' = here) as -> by congruence.
      replace (channel =? observed_channel player here) with false by lia.
      rewrite !andb_false_r. reflexivity.
    + replace (cell <? j + 1) with (cell <? j) by lia. reflexivity.
Qed.

(** C9. For a board of 64 cells and a valid player, [ObservationTensor]
    returns a tensor of 3 channels of 64 cells in which, for every cell,
    the entry of one channel is 1.0 and the entries of the two others are
    0.0, whatever the vector held before.  For player 0 that channel is
    the stored value of the cell (0 for an empty cell); for player 1 it
    is 0 for an empty cell, 2 for a cell that stores 1 and 1 for a cell
    that stores 2. *)
Theorem ObservationTensor_one_hot (b : Board) (player : Player)
    (values : list float) :
  length b = 64%nat ->
  valid_player player ->
  exists view,
    ObservationTensor b player values = Ok view /\
    length view = 192%nat /\
    (forall cell here,
       0 <= cell < 64 -> board_read b cell = Ok here ->
       0 <= observed_channel player here < 3 /\
       (player = 0 -> observed_channel player here = CellState_to_int here) /\
       (player = 1 ->
          (CellState_to_int here = 0 -> observed_channel player here = 0) /\
          (CellState_to_int here = 1 -> observed_channel player here = 2) /\
          (CellState_to_int here = 2 -> observed_channel player here = 1)) /\
       forall channel, 0 <= channel < 3 ->
         tensor_at view channel cell =
           Some (if channel =? observed_channel player here
                 then 1%float else 0%float)).
Proof.
  intros Hlen Hp. unfold ObservationTensor.
  replace (negb (player >=? 0)) with false
    by (destruct Hp as [-> | ->]; reflexivity).
  replace (negb (player <? kNumPlayers)) with false
    by (destruct Hp as [-> | ->]; reflexivity).
  destruct (for_loop_total (observed_upto b player)
              (fun cell view =>
                 let* here := board_read b cell in
                 let value := CellState_to_int here in
                 if player =? 1 then
                   if value =? 2 then TensorView_set kNumCells view 1 cell 1%float
                   else if value =? 1 then TensorView_set kNumCells view 2 cell 1%float
                   else TensorView_set kNumCells view 0 cell 1%float
                 else TensorView_set kNumCells view value cell 1%float)
              (Z.to_nat kNumCells) 0
              (TensorView_reset kCellStates kNumCells values))
    as (view & Hloop & Hlenv & Hview).
  - split; [reflexivity|]. intros channel cell here Hchannel Hcell _.
    unfold tensor_at, TensorView_reset, kCellStates, kNumPlayers, kNumCells,
      kNumRows, kNumCols.
    rewrite lookup_replicate_2 by lia.
    replace (cell <? 0) with false by lia. reflexivity.
  - intros j view Hj Hview.
    assert (Hj' : 0 <= j < 64) by (unfold kNumCells, kNumRows, kNumCols in Hj; lia).
    destruct (board_read_total b j ltac:(lia)) as [here Hhere].
    rewrite Hhere. cbn [bind]. cbv zeta. rewrite ObservationTensor_body.
    apply (observed_upto_step b player j view here); assumption.
  - exists view. split; [exact Hloop | split; [exact Hlenv|]].
    intros cell here Hcell Hhere.
    split; [apply observed_channel_range|].
    split; [intros ->; reflexivity|].
    split; [intros ->; destruct here; simpl; intuition discriminate|].
    intros channel Hchannel.
    rewrite (Hview channel cell here Hchannel Hcell Hhere).
    change (0 + Z.of_nat (Z.to_nat kNumCells)) with 64.
    replace (cell <? 64) with true by lia. reflexivity.
Qed.

(** The opening position seen by player 1: cell 27 stores White (2) and
    shows in channel 1. *)
Lemma ObservationTensor_one_hot_witness :
  exists view,
    ObservationTensor (board_ NewInitialState) 1 [] = Ok view /\
    tensor_at view 0 27 = Some 0%float /\
    tensor_at view 1 27 = Some 1%float /\
    tensor_at view 2 27 = Some 0%float.
Proof.
  destruct (ObservationTensor_one_hot (board_ NewInitialState) 1 []
              eq_refl (or_intror eq_refl)) as (view & Hview & _ & Hcells).
  exists view. split; [exact Hview|].
  destruct (Hcells 27 kWhite ltac:(lia) eq_refl) as (_ & _ & _ & Hat).
  repeat split; [apply (Hat 0) | apply (Hat 1) | apply (Hat 2)]; lia.
Defined.

(** ** The states of a game *)

Lemma DoApplyAction_state_ok (s s' : OthelloState) (move : Z) :
  state_ok s -> DoApplyAction s move = Ok s' -> state_ok s'.
Proof.
  intros [Hlen Hp] Happly.
  assert (Hother : valid_player (1 - current_player_ s))
    by (unfold valid_player in *; lia).
  destruct (Z.eq_dec move kPassMove) as [->|Hpass].
  - unfold DoApplyAction in Happly. rewrite Z.eqb_refl in Happly.
    injection Happly as <-. split; assumption.
  - assert (Hvalid : ValidAction (board_ s) (current_player_ s) move = Ok true).
    { unfold DoApplyAction in Happly. apply Z.eqb_neq in Hpass.
      rewrite Hpass in Happly. apply bind_Ok in Happly as ([|] & Hvalid & H);
        [exact Hvalid | discriminate]. }
    destruct (DoApplyAction_valid s move Hlen Hvalid)
      as (b & ended & _ & Hlenb & _ & Happly').
    rewrite Happly' in Happly. injection Happly as <-.
    destruct ended; split; assumption.
Qed.

(** Every state of a game has a board of 64 cells and player 0 or 1 to
    move: the assumptions of the theorems on states. *)
Lemma reachable_state_ok (s : OthelloState) : reachable s -> state_ok s.
Proof.
  induction 1 as [|s s' move _ IH Happly].
  - split; [reflexivity | left; reflexivity].
  - exact (DoApplyAction_state_ok s s' move IH Happly).
Qed.

(** * Further properties of the engine *)

(** ** Rendering *)

Lemma for_loop_ext {St : Type} (body1 body2 : Z -> St -> result St) (n : nat) :
  forall (i : Z) (s : St),
  (forall j t, i <= j < i + Z.of_nat n -> body1 j t = body2 j t) ->
  for_loop n i body1 s = for_loop n i body2 s.
Proof.
  induction n as [|n IH]; intros i s Hbody; [reflexivity|].
  simpl. rewrite Hbody by lia. destruct (body2 i s) as [t|e]; [|reflexivity].
  simpl. apply IH. intros j u Hj. apply Hbody. lia.
Qed.

Lemma swap_colour_involutive (c : CellState) : swap_colour (swap_colour c) = c.
Proof. destruct c; reflexivity. Qed.

Lemma board_read_swap_colours (b : Board) (i : Z) :
  board_read (swap_colours b) i =
    match board_read b i with
    | Ok c => Ok (swap_colour c)
    | Err e => Err e
    end.
Proof.
  unfold board_read, swap_colours. destruct (i <? 0); [reflexivity|].
  rewrite list_lookup_fmap. destruct (b !! Z.to_nat i); reflexivity.
Qed.

Lemma StateToString_swap (player : Player) (c : CellState) :
  valid_player player ->
  StateToString player (swap_colour c) = StateToString (1 - player) c.
Proof. intros [-> | ->]; destruct c; reflexivity. Qed.

Lemma StateToString_own (player : Player) (cell : CellState) :
  PlayerToState player = Ok cell -> StateToString player cell = "x".
Proof. intros [[-> ->]|[-> ->]]%PlayerToState_Ok; reflexivity. Qed.

Lemma string_length_append (s1 s2 : string) :
  String.length (s1 +:+ s2) = (String.length s1 + String.length s2)%nat.
Proof. induction s1 as [|c s1 IH]; simpl; [reflexivity | rewrite IH; reflexivity]. Qed.

Lemma StateToString_length (player : Player) (c : CellState) :
  String.length (StateToString player c) = 1%nat.
Proof. destruct c; simpl; try reflexivity; destruct (player =? 0); reflexivity. Qed.

(** The text of an action of the board or of Pass. *)
Lemma ActionToString_text (player : Player) (cell : CellState) (action_id : Z) :
  PlayerToState player = Ok cell -> 0 <= action_id <= 64 ->
  ActionToString player action_id =
    Ok (if action_id =? 64 then "x(pass)"
        else String (char_of_int (int_of_char "a" + action_id mod 8))
               (String (char_of_int (int_of_char "1" + action_id / 8)) " (x)")).
Proof.
  intros Hcell Ha. unfold ActionToString. change kPassMove with 64.
  destruct (action_id =? 64) eqn:Hpass.
  - rewrite Hcell. cbn [bind]. rewrite (StateToString_own _ _ Hcell). reflexivity.
  - apply Z.eqb_neq in Hpass.
    assert (Hint : int_of_Action action_id = action_id).
    { unfold int_of_Action, int_min. rewrite Z.mod_small; lia. }
    rewrite Hint, RowColFromMove_Ok by lia. cbn [bind].
    rewrite Hcell. cbn [bind]. rewrite (StateToString_own _ _ Hcell). reflexivity.
Qed.

(** X1. For both players [ActionToString] renders an action with the
    glyph "x": Pass as "x(pass)" and the move of a cell of [0, 64) as the
    letter of its column, the digit of its row and " (x)"; so the text of
    an action does not tell which player makes it. *)
Theorem ActionToString_glyph (player : Player) (action_id : Z) :
  valid_player player ->
  0 <= action_id <= 64 ->
  ActionToString player action_id =
    Ok (if action_id =? 64 then "x(pass)"
        else String (char_of_int (int_of_char "a" + action_id mod 8))
               (String (char_of_int (int_of_char "1" + action_id / 8)) " (x)")) /\
  ActionToString player action_id = ActionToString (1 - player) action_id.
Proof.
  intros Hp Ha.
  assert (Hq : valid_player (1 - player)) by (unfold valid_player in *; lia).
  apply valid_player_PlayerToState in Hp as [cell Hcell].
  apply valid_player_PlayerToState in Hq as [cell' Hcell'].
  rewrite (ActionToString_text _ _ _ Hcell Ha), (ActionToString_text _ _ _ Hcell' Ha).
  split; reflexivity.
Qed.

Lemma ActionToString_glyph_witness :
  ActionToString 1 19 = Ok "d3 (x)" /\ ActionToString 0 64 = Ok "x(pass)".
Proof.
  split.
  - apply (ActionToString_glyph 1 19); [right; reflexivity | lia].
  - apply (ActionToString_glyph 0 64); [left; reflexivity | lia].
Defined.

Lemma char_of_int_inj (x y : Z) :
  0 <= x < 256 -> 0 <= y < 256 -> char_of_int x = char_of_int y -> x = y.
Proof.
  unfold char_of_int. intros Hx Hy H.
  rewrite !Z.mod_small in H by lia.
  apply (f_equal N_of_ascii) in H.
  rewrite !N_ascii_embedding in H by lia. lia.
Qed.

(** X2. Two actions among the 64 cells and Pass that [ActionToString]
    renders alike, for players that may differ, are the same action. *)
Theorem ActionToString_injective (player1 player2 : Player) (action1 action2 : Z) :
  valid_player player1 -> valid_player player2 ->
  0 <= action1 <= 64 -> 0 <= action2 <= 64 ->
  ActionToString player1 action1 = ActionToString player2 action2 ->
  action1 = action2.
Proof.
  intros [c1 Hc1]%valid_player_PlayerToState [c2 Hc2]%valid_player_PlayerToState
    Ha1 Ha2.
  rewrite (ActionToString_text _ _ _ Hc1 Ha1), (ActionToString_text _ _ _ Hc2 Ha2).
  pose proof (Z.mod_pos_bound action1 8 ltac:(lia)).
  pose proof (Z.mod_pos_bound action2 8 ltac:(lia)).
  assert (0 <= action1 / 8 <= 8) by (split; [apply Z.div_pos | apply Z.div_le_upper_bound]; lia).
  assert (0 <= action2 / 8 <= 8) by (split; [apply Z.div_pos | apply Z.div_le_upper_bound]; lia).
  change (int_of_char "a") with 97. change (int_of_char "1") with 49.
  destruct (action1 =? 64) eqn:E1, (action2 =? 64) eqn:E2; intros Hsame;
    [lia | | |];
    pose proof (f_equal (fun r => match r with
                                  | Ok (String c _) => c
                                  | _ => "x"%char
                                  end) Hsame) as Hcol;
    pose proof (f_equal (fun r => match r with
                                  | Ok (String _ (String c _)) => c
                                  | _ => "x"%char
                                  end) Hsame) as Hrow;
    cbv beta iota in Hcol, Hrow.
  - change "x"%char with (char_of_int 120) in Hcol.
    apply char_of_int_inj in Hcol; lia.
  - change "x"%char with (char_of_int 120) in Hcol.
    apply char_of_int_inj in Hcol; lia.
  - apply char_of_int_inj in Hcol; [|lia ..].
    apply char_of_int_inj in Hrow; [|lia ..].
    pose proof (Z.div_mod action1 8 ltac:(lia)).
    pose proof (Z.div_mod action2 8 ltac:(lia)). lia.
Qed.

Lemma ActionToString_injective_witness :
  ActionToString 0 19 <> ActionToString 1 26.
Proof.
  intros Hsame.
  pose proof (ActionToString_injective 0 1 19 26 (or_introl eq_refl)
                (or_intror eq_refl) ltac:(lia) ltac:(lia) Hsame) as Heq.
  discriminate Heq.
Defined.

(** X3. [ActionToString] ends in the fatal error of [RowColFromMove] for
    every action in the range of [int] that is neither a cell of [0, 64)
    nor Pass, whoever the player is; for an action that is a cell or
    Pass it ends in the fatal error of [PlayerToState] when the player is
    neither 0 nor 1. *)
Theorem ActionToString_errors (player : Player) (action_id : Z) :
  (int_min <= action_id <= int_max -> ~ 0 <= action_id <= 64 ->
   ActionToString player action_id = Err (SpielFatalError MoveTooLarge)) /\
  (0 <= action_id <= 64 -> ~ valid_player player ->
   ActionToString player action_id = Err (SpielFatalError InvalidPlayerId)).
Proof.
  unfold ActionToString. change kPassMove with 64. split.
  - intros Hint Hout.
    replace (action_id =? 64) with false by lia.
    replace (int_of_Action action_id) with action_id
      by (unfold int_of_Action, int_min, int_max in *; rewrite Z.mod_small; lia).
    unfold RowColFromMove, kNumCells, kNumRows, kNumCols.
    replace ((action_id <? 0) || (action_id >=? 8 * 8)) with true by lia.
    reflexivity.
  - intros Ha Hp.
    assert (Hcell : PlayerToState player = Err (SpielFatalError InvalidPlayerId)).
    { unfold PlayerToState, valid_player in *.
      replace (player =? 0) with false by lia.
      replace (player =? 1) with false by lia. reflexivity. }
    destruct (action_id =? 64) eqn:Hpass; [rewrite Hcell; reflexivity|].
    replace (int_of_Action action_id) with action_id
      by (unfold int_of_Action, int_min, int_max in *; rewrite Z.mod_small; lia).
    rewrite RowColFromMove_Ok by lia. cbn [bind]. rewrite Hcell. reflexivity.
Qed.

Lemma BoardAt_swap_colours (b : Board) (row col : Z) :
  BoardAt (swap_colours b) row col =
    match BoardAt b row col with
    | Ok c => Ok (swap_colour c)
    | Err e => Err e
    end.
Proof. apply board_read_swap_colours. Qed.

(** X4. The text of a board for one player is the text for the other
    player of the board with the colours exchanged: the two views differ
    in the glyphs of the colours and in nothing else. *)
Theorem ToStringForPlayer_swap (b : Board) (player : Player) :
  valid_player player ->
  ToStringForPlayer (swap_colours b) player = ToStringForPlayer b (1 - player).
Proof.
  intros Hp. unfold ToStringForPlayer. f_equal.
  apply for_loop_ext. intros r str _. f_equal.
  apply for_loop_ext. intros c str' _.
  rewrite BoardAt_swap_colours.
  destruct (BoardAt b r c) as [here|e]; [|reflexivity].
  cbn [bind]. rewrite (StateToString_swap _ _ Hp). reflexivity.
Qed.

Lemma ToStringForPlayer_swap_witness :
  ToStringForPlayer (swap_colours (board_ NewInitialState)) 0 =
    ToStringForPlayer (board_ NewInitialState) (1 - 0).
Proof. apply (ToStringForPlayer_swap _ 0). left. reflexivity. Defined.

(** The same symmetry for the cells that [ObservationTensor] writes. *)
Lemma ObservationTensor_cell_swap (b : Board) (player : Player)
    (view : list float) (cell : Z) :
  valid_player player ->
  (let* here := board_read (swap_colours b) cell in
   let value := CellState_to_int here in
   if player =? 1 then
     if value =? 2 then TensorView_set kNumCells view 1 cell 1%float
     else if value =? 1 then TensorView_set kNumCells view 2 cell 1%float
     else TensorView_set kNumCells view 0 cell 1%float
   else TensorView_set kNumCells view value cell 1%float) =
  (let* here := board_read b cell in
   let value := CellState_to_int here in
   if 1 - player =? 1 then
     if value =? 2 then TensorView_set kNumCells view 1 cell 1%float
     else if value =? 1 then TensorView_set kNumCells view 2 cell 1%float
     else TensorView_set kNumCells view 0 cell 1%float
   else TensorView_set kNumCells view value cell 1%float).
Proof.
  intros Hp. rewrite board_read_swap_colours.
  destruct (board_read b cell) as [here|e]; [|reflexivity].
  destruct Hp as [-> | ->]; destruct here; reflexivity.
Qed.

(** X5. The observation tensor of a board for one player is the tensor
    for the other player of the board with the colours exchanged,
    whatever the two vectors held before. *)
Theorem ObservationTensor_swap (b : Board) (player : Player)
    (values values' : list float) :
  valid_player player ->
  ObservationTensor (swap_colours b) player values =
    ObservationTensor b (1 - player) values'.
Proof.
  intros Hp. unfold ObservationTensor.
  replace (negb (player >=? 0)) with false
    by (destruct Hp as [-> | ->]; reflexivity).
  replace (negb (player <? kNumPlayers)) with false
    by (destruct Hp as [-> | ->]; reflexivity).
  replace (negb (1 - player >=? 0)) with false
    by (destruct Hp as [-> | ->]; reflexivity).
  replace (negb (1 - player <? kNumPlayers)) with false
    by (destruct Hp as [-> | ->]; reflexivity).
  unfold TensorView_reset.
  apply for_loop_ext. intros cell view _.
  apply ObservationTensor_cell_swap. exact Hp.
Qed.

Lemma ObservationTensor_swap_witness :
  ObservationTensor (swap_colours (board_ NewInitialState)) 1 [] =
    ObservationTensor (board_ NewInitialState) (1 - 1) [1%float].
Proof. apply (ObservationTensor_swap _ 1). right. reflexivity. Defined.

(** ** Counting discs *)

Lemma disks_app (l1 l2 : Board) (c : CellState) :
  disks (l1 ++ l2) c = disks l1 c + disks l2 c.
Proof. unfold disks. rewrite List.filter_app, length_app. lia. Qed.

Lemma disks_cons (x : CellState) (l : Board) (c : CellState) :
  disks (x :: l) c = (if CellState_eqb x c then 1 else 0) + disks l c.
Proof. unfold disks. simpl. destruct (CellState_eqb x c); simpl length; lia. Qed.

Lemma disks_insert (b : Board) (i : nat) (x y c : CellState) :
  b !! i = Some x ->
  disks (<[i := y]> b) c =
    disks b c - (if CellState_eqb x c then 1 else 0)
              + (if CellState_eqb y c then 1 else 0).
Proof.
  intros Hx. pose proof (lookup_lt_Some _ _ _ Hx) as Hi.
  rewrite insert_take_drop by exact Hi.
  rewrite <- (take_drop_middle b i x Hx) at 3.
  rewrite !disks_app, !disks_cons. lia.
Qed.

Lemma disks_total (b : Board) :
  disks b kEmpty + disks b kBlack + disks b kWhite = Z.of_nat (length b).
Proof.
  induction b as [|x b IH]; [reflexivity|].
  rewrite !disks_cons. simpl length. destruct x; simpl; lia.
Qed.

Lemma disks_nonneg (b : Board) (c : CellState) : 0 <= disks b c.
Proof. unfold disks. lia. Qed.

Lemma RowColToMove_Ok_inv (row col index : Z) :
  RowColToMove row col = Ok index ->
  index = row * 8 + col /\ 0 <= row /\ 0 <= col.
Proof.
  unfold RowColToMove, int_expr, kNumRows, kNumCols.
  destruct ((row <? 0) || (col <? 0)) eqn:Hneg; [discriminate|].
  destruct ((int_min <=? row * col) && (row * col <=? int_max)); [|discriminate].
  cbn [bind]. destruct (row * col >=? kNumCells); [discriminate|].
  destruct ((int_min <=? row * 8) && (row * 8 <=? int_max)); [|discriminate].
  cbn [bind].
  destruct ((int_min <=? row * 8 + col) && (row * 8 + col <=? int_max));
    [|discriminate].
  intros [= <-]. lia.
Qed.

(** Every iteration of the loop of [Capture] that returns turns one disc
    of the opponent into a disc of the player. *)
Lemma Capture_loop_counts (cell : CellState) (dir : Direction) (n : nat) :
  forall (b b' : Board) (row col : Z),
  cell <> kEmpty ->
  Capture_loop n b cell dir row col = Ok b' ->
  length b' = length b /\
  disks b' kEmpty = disks b kEmpty /\
  disks b' cell = disks b cell + Z.of_nat n /\
  (forall c, c <> cell -> c <> kEmpty -> disks b' c = disks b c - Z.of_nat n).
Proof.
  induction n as [|n IH]; intros b b' row col Hcell Hloop.
  { injection Hloop as <-. split; [|split; [|split]]; lia. }
  cbn [Capture_loop] in Hloop.
  apply bind_Ok in Hloop as (here & Hhere & Hloop).
  destruct (CellState_eqb here kEmpty) eqn:He; [discriminate|].
  destruct (CellState_eqb here cell) eqn:Hc; [discriminate|].
  cbn [orb] in Hloop.
  apply bind_Ok in Hloop as (index & Hindex & Hloop).
  apply bind_Ok in Hloop as (b1 & Hb1 & Hloop).
  apply RowColToMove_Ok_inv in Hindex as (-> & _ & _).
  rewrite BoardAt_index in Hhere. apply board_read_lookup in Hhere as [Hi Hhere].
  unfold board_write in Hb1.
  destruct ((0 <=? row * 8 + col) && (row * 8 + col <? Z.of_nat (length b)));
    [|discriminate].
  injection Hb1 as <-.
  destruct (GetNext row col dir) as [row' col'].
  apply IH in Hloop as (Hlen & Hempty & Hown & Hopp); [|exact Hcell].
  rewrite length_insert in Hlen.
  rewrite (disks_insert _ _ _ _ _ Hhere) in Hempty.
  rewrite (disks_insert _ _ _ _ _ Hhere) in Hown.
  rewrite He in Hempty. rewrite Hc, CellState_eqb_refl in Hown.
  replace (CellState_eqb cell kEmpty) with false in Hempty
    by (symmetry; apply CellState_eqb_neq; exact Hcell).
  split; [exact Hlen | split; [lia | split; [lia|]]].
  intros c Hne Hne0. rewrite (Hopp c Hne Hne0), (disks_insert _ _ _ _ _ Hhere).
  replace (CellState_eqb cell c) with false
    by (symmetry; apply CellState_eqb_neq; congruence).
  replace (CellState_eqb here c) with true; [lia|].
  symmetry. apply CellState_eqb_eq.
  apply CellState_eqb_neq in He, Hc. destruct here, c, cell; congruence.
Qed.

(** X6. Whatever [steps] it is given, a call of [Capture] that returns
    has turned exactly [steps] discs of the opponent into discs of the
    player (none when [steps] is negative): it keeps the number of cells
    and of empty cells, adds [steps] to the discs of the player and takes
    [steps] from the discs of the opponent. *)
Theorem Capture_counts (b b' : Board) (player : Player) (move : Z)
    (dir : Direction) (steps : Z) :
  Capture b player move dir steps = Ok b' ->
  length b' = length b /\
  disks b' kEmpty = disks b kEmpty /\
  exists own opp,
    PlayerToState player = Ok own /\ PlayerToState (1 - player) = Ok opp /\
    disks b' own = disks b own + Z.max 0 steps /\
    disks b' opp = disks b opp - Z.max 0 steps.
Proof.
  unfold Capture. intros ([row col] & _ & H)%bind_Ok.
  destruct (GetNext row col dir) as [row' col'].
  apply bind_Ok in H as (own & Hown & Hloop).
  pose proof (PlayerToState_not_empty _ _ Hown) as Hne.
  apply Capture_loop_counts in Hloop as (Hlen & Hempty & Hmine & Htheirs);
    [|exact Hne].
  replace (Z.of_nat (Z.to_nat steps)) with (Z.max 0 steps) in * by lia.
  split; [exact Hlen | split; [exact Hempty|]].
  apply PlayerToState_Ok in Hown as [[-> ->]|[-> ->]].
  - exists kBlack, kWhite. repeat split; [exact Hmine|].
    apply Htheirs; discriminate.
  - exists kWhite, kBlack. repeat split; [exact Hmine|].
    apply Htheirs; discriminate.
Qed.

Lemma Capture_counts_witness :
  length (<[27%nat := kBlack]> (<[19%nat := kBlack]> (board_ NewInitialState)))
    = length (<[19%nat := kBlack]> (board_ NewInitialState)) /\
  disks (<[27%nat := kBlack]> (<[19%nat := kBlack]> (board_ NewInitialState))) kEmpty
    = disks (<[19%nat := kBlack]> (board_ NewInitialState)) kEmpty /\
  exists own opp,
    PlayerToState 0 = Ok own /\ PlayerToState (1 - 0) = Ok opp /\
    disks (<[27%nat := kBlack]> (<[19%nat := kBlack]> (board_ NewInitialState))) own
      = disks (<[19%nat := kBlack]> (board_ NewInitialState)) own + Z.max 0 1 /\
    disks (<[27%nat := kBlack]> (<[19%nat := kBlack]> (board_ NewInitialState))) opp
      = disks (<[19%nat := kBlack]> (board_ NewInitialState)) opp - Z.max 0 1.
Proof.
  apply (Capture_counts (<[19%nat := kBlack]> (board_ NewInitialState)) _
           0 19 kDown 1).
  reflexivity.
Defined.

(** ** What a count depends on *)

(** The loop of [CountSteps] reads the cells of its ray that are on the
    board, and nothing else. *)
Lemma CountSteps_loop_agree (b1 b2 : Board) (cell : CellState) (dir : Direction)
    (fuel : nat) :
  forall (row col count : Z),
  (forall k, OnBoard (fst (ray dir row col k)) (snd (ray dir row col k)) = true ->
     BoardAt b1 (fst (ray dir row col k)) (snd (ray dir row col k)) =
       BoardAt b2 (fst (ray dir row col k)) (snd (ray dir row col k))) ->
  CountSteps_loop fuel b1 cell dir row col count =
    CountSteps_loop fuel b2 cell dir row col count.
Proof.
  induction fuel as [|fuel IH]; intros row col count Hagree; [reflexivity|].
  cbn [CountSteps_loop]. destruct (OnBoard row col) eqn:Hon; [|reflexivity].
  pose proof (Hagree 0%nat) as Hhere. cbn [ray fst snd] in Hhere.
  rewrite <- (Hhere Hon).
  destruct (BoardAt b1 row col) as [here|e]; [|reflexivity]. cbn [bind].
  destruct (CellState_eqb here cell); [reflexivity|].
  destruct (CellState_eqb here kEmpty); [reflexivity|].
  pose proof (fun k => Hagree (S k)) as Hnext.
  setoid_rewrite ray_S in Hnext.
  destruct (GetNext row col dir) as [row' col']. apply IH. exact Hnext.
Qed.

Lemma bind_Err {A B : Type} (e : error) (k : A -> result B) : bind (Err e) k = Err e.
Proof. reflexivity. Qed.
Lemma bind_Ok_eq {A B : Type} (a : A) (k : A -> result B) : bind (Ok a) k = k a.
Proof. reflexivity. Qed.

Lemma CountSteps_agree (b1 b2 : Board) (player : Player) (move : Z)
    (dir : Direction) :
  (forall k, (1 <= k)%nat -> walk_on_board move dir k = true ->
     walk_cell b1 move dir k = walk_cell b2 move dir k) ->
  CountSteps b1 player move dir = CountSteps b2 player move dir.
Proof.
  intros Hagree.
  destruct (decide (0 <= move < 64)) as [Hmove|Hmove].
  - destruct (PlayerToState player) as [cell|e] eqn:Hcell.
    + rewrite !(CountSteps_unfold _ player cell) by assumption.
      apply CountSteps_loop_agree. intros k Hon.
      specialize (Hagree (S k) ltac:(lia)).
      unfold walk_on_board, walk_cell in Hagree.
      rewrite walk_S in Hagree. apply Hagree. exact Hon.
    + unfold CountSteps. rewrite RowColFromMove_Ok by exact Hmove.
      rewrite !bind_Ok_eq. destruct (GetNext _ _ dir). rewrite Hcell, !bind_Err.
      reflexivity.
  - unfold CountSteps, RowColFromMove, kNumCells, kNumRows, kNumCols.
    replace ((move <? 0) || (move >=? 8 * 8)) with true by lia.
    rewrite !bind_Err. reflexivity.
Qed.

Lemma walk_index (move : Z) (dir : Direction) (k : nat) :
  0 <= move < 64 ->
  fst (walk move dir k) * 8 + snd (walk move dir k) =
    move + Z.of_nat k * index_step dir.
Proof.
  intros Hmove. unfold walk, kNumRows, kNumCols.
  rewrite Z.quot_div_nonneg, Z.rem_mod_nonneg by lia.
  rewrite ray_index. pose proof (Z.div_mod move 8 ltac:(lia)). lia.
Qed.

Lemma CountSteps_insert_move (b : Board) (player : Player) (move : Z)
    (dir : Direction) (c : CellState) :
  CountSteps (<[Z.to_nat move := c]> b) player move dir =
    CountSteps b player move dir.
Proof.
  destruct (decide (0 <= move < 64)) as [Hmove|Hmove].
  - apply CountSteps_agree. intros k Hk Hon.
    unfold walk_cell. rewrite !BoardAt_index.
    apply board_read_insert_ne; [lia | |].
    + unfold walk_on_board in Hon. apply OnBoard_true in Hon. lia.
    + rewrite walk_index by exact Hmove.
      pose proof (index_step_nonzero dir). nia.
  - unfold CountSteps, RowColFromMove, kNumCells, kNumRows, kNumCols.
    replace ((move <? 0) || (move >=? 8 * 8)) with true by lia.
    rewrite !bind_Err. reflexivity.
Qed.

(** X7. The count of [CountSteps] from a move does not depend on what
    the cell of the move holds: on the board on which [DoApplyAction] has
    placed the piece the counts are those that [ValidAction] saw before
    the piece was placed. *)
Theorem CountSteps_placed (b : Board) (player : Player) (move : Z)
    (dir : Direction) (c : CellState) :
  CountSteps (<[Z.to_nat move := c]> b) player move dir =
    CountSteps b player move dir.
Proof. apply CountSteps_insert_move. Qed.

Lemma steps_left_ray (dir : Direction) (row col : Z) (k : nat) :
  steps_left dir (fst (ray dir row col k)) (snd (ray dir row col k)) =
    steps_left dir row col - Z.of_nat k.
Proof.
  revert row col. induction k as [|k IH]; intros row col.
  - cbn [ray fst snd]. lia.
  - rewrite ray_S, IH, steps_left_GetNext. lia.
Qed.

(** X8. A count that [CountSteps] returns is at least 0 and at most 6:
    between the cell next to the move and the closing cell of the
    player's colour a line of the board has room for six cells. *)
Theorem CountSteps_range (b : Board) (player : Player) (move : Z)
    (dir : Direction) (steps : Z) :
  CountSteps b player move dir = Ok steps -> 0 <= steps <= 6.
Proof.
  intros Hcount. destruct (Z.eq_dec steps 0) as [->|Hne]; [lia|].
  destruct (CountSteps_Ok_inv _ _ _ _ _ Hcount) as [Hmove [cell Hcell]].
  rewrite (CountSteps_unfold b player cell) in Hcount by assumption.
  destruct (CountSteps_loop_positive _ _ _ _ _ _ _ _ Hcount ltac:(lia) Hne)
    as (n & -> & _ & Hon & _).
  apply (steps_left_OnBoard dir) in Hon. rewrite steps_left_ray in Hon.
  pose proof (walk_start_steps_left move dir Hmove) as Hstart.
  rewrite walk_1 in Hstart, Hon by exact Hmove.
  pose proof (steps_left_GetNext dir (move / 8) (move mod 8)) as Hnext.
  pose proof (steps_left_OnBoard dir _ _ (RowColFromMove_OnBoard move Hmove)).
  lia.
Qed.

Lemma CountSteps_range_witness : 0 <= 1 <= 6.
Proof.
  apply (CountSteps_range (board_ NewInitialState) 0 19 kDown 1). reflexivity.
Defined.

(** ** The cells that a move flips *)

Lemma ray_coords (dir : Direction) (row col : Z) (k : nat) :
  fst (ray dir row col k) = row + Z.of_nat k * fst (GetNext 0 0 dir) /\
  snd (ray dir row col k) = col + Z.of_nat k * snd (GetNext 0 0 dir).
Proof.
  revert row col. induction k as [|k IH]; intros row col.
  - cbn [ray fst snd]. lia.
  - rewrite ray_S, Nat2Z.inj_succ.
    destruct (IH (fst (GetNext row col dir)) (snd (GetNext row col dir))) as [-> ->].
    destruct dir; cbn [GetNext fst snd]; lia.
Qed.

Lemma walk_index_of_eq (move : Z) (dir : Direction) (k : nat) :
  0 <= move < 64 ->
  walk_index_of move dir k = move + Z.of_nat k * index_step dir.
Proof. intros Hmove. unfold walk_index_of, kNumCols. apply walk_index. exact Hmove. Qed.

(** Two walks from a move in two directions meet in no cell of the
    board. *)
Lemma walk_index_disjoint (move : Z) (d d' : Direction) (k k' : nat) :
  d <> d' -> (1 <= k)%nat -> (1 <= k')%nat ->
  walk_on_board move d k = true -> walk_on_board move d' k' = true ->
  walk_index_of move d k <> walk_index_of move d' k'.
Proof.
  unfold walk_on_board, walk_index_of, walk, kNumCols.
  intros Hne Hk Hk' Hon%OnBoard_true Hon'%OnBoard_true.
  destruct (ray_coords d (Z.quot move 8) (Z.rem move kNumRows) k) as [Hr Hc].
  destruct (ray_coords d' (Z.quot move 8) (Z.rem move kNumRows) k') as [Hr' Hc'].
  rewrite Hr, Hc in *. rewrite Hr', Hc' in *.
  destruct d, d'; try congruence; cbn [GetNext fst snd] in *; lia.
Qed.

Lemma flank_positive (b : Board) (player : Player) (cell : CellState)
    (move : Z) (dir : Direction) :
  PlayerToState player = Ok cell -> 0 < flank b player move dir ->
  CountSteps b player move dir = Ok (flank b player move dir) /\
  opposing_run b cell dir (fst (walk move dir 1)) (snd (walk move dir 1))
    (Z.to_nat (flank b player move dir)).
Proof.
  unfold flank. intros Hcell Hpos.
  destruct (CountSteps b player move dir) as [steps|e] eqn:Hcount; [|lia].
  split; [reflexivity|].
  apply (CountSteps_positive b player cell move dir steps Hcell Hcount). lia.
Qed.

(** The cells that a direction flanks are on the board and hold the
    opponent's colour. *)
Lemma flank_cells (b : Board) (player : Player) (cell : CellState)
    (move : Z) (dir : Direction) (k : nat) :
  PlayerToState player = Ok cell ->
  (1 <= k)%nat -> Z.of_nat k <= flank b player move dir ->
  walk_on_board move dir k = true /\ opposing cell (walk_cell b move dir k).
Proof.
  intros Hcell Hk Hflank.
  destruct (flank_positive b player cell move dir Hcell ltac:(lia)) as [_ Hrun].
  apply (proj2 (walk_opposing_run b cell move dir _) Hrun). lia.
Qed.

Lemma flank_sum_ext (b1 b2 : Board) (player : Player) (move : Z)
    (dirs : list Direction) :
  (forall dir, In dir dirs ->
     CountSteps b1 player move dir = CountSteps b2 player move dir) ->
  flank_sum b1 player move dirs = flank_sum b2 player move dirs.
Proof.
  induction dirs as [|d dirs IH]; intros Hsame; [reflexivity|].
  cbn [flank_sum foldr]. fold (flank_sum b1 player move dirs).
  fold (flank_sum b2 player move dirs).
  rewrite IH by (intros; apply Hsame; right; assumption).
  unfold flank. rewrite (Hsame d) by (left; reflexivity). reflexivity.
Qed.

Lemma flank_nonneg (b : Board) (player : Player) (move : Z) (dir : Direction) :
  0 <= flank b player move dir.
Proof.
  unfold flank.
  destruct (CountSteps b player move dir) as [steps|e] eqn:Hcount; [|lia].
  destruct (Z.eq_dec steps 0) as [->|Hne]; [lia|].
  destruct (CountSteps_Ok_inv _ _ _ _ _ Hcount) as [_ [cell Hcell]].
  apply (CountSteps_positive b player cell move dir steps Hcell Hcount) in Hne.
  lia.
Qed.

Lemma flank_sum_nonneg (b : Board) (player : Player) (move : Z)
    (dirs : list Direction) :
  0 <= flank_sum b player move dirs /\
  forall dir, In dir dirs -> flank b player move dir <= flank_sum b player move dirs.
Proof.
  induction dirs as [|d dirs [IH1 IH2]]; cbn [flank_sum foldr].
  - split; [lia | intros dir []].
  - fold (flank_sum b player move dirs).
    pose proof (flank_nonneg b player move d). split; [lia|].
    intros dir [<-|Hin]; [lia|]. specialize (IH2 dir Hin). lia.
Qed.

Lemma walk_cell_index (b : Board) (move : Z) (dir : Direction) (k : nat) :
  walk_cell b move dir k = board_read b (walk_index_of move dir k).
Proof. reflexivity. Qed.

Lemma walk_on_board_index (move : Z) (dir : Direction) (k : nat) :
  walk_on_board move dir k = true -> 0 <= walk_index_of move dir k < 64.
Proof.
  unfold walk_on_board, walk_index_of, kNumCols. intros H%OnBoard_true. lia.
Qed.

Lemma all_directions_NoDup : List.NoDup all_directions.
Proof.
  unfold all_directions.
  repeat (apply List.NoDup_cons; [simpl; intuition discriminate|]).
  apply List.NoDup_nil.
Qed.

Lemma all_directions_complete (dir : Direction) : In dir all_directions.
Proof. destruct dir; simpl; tauto. Qed.

(** The loop over the directions of [DoApplyAction]: it returns, it
    turns the cells that the directions flank on the board it starts
    from into cells of the player, and it changes no other cell. *)
Lemma DoApplyAction_captures_spec (player : Player) (cell : CellState)
    (move : Z) (dirs : list Direction) :
  PlayerToState player = Ok cell -> 0 <= move < 64 ->
  forall b : Board,
  List.NoDup dirs -> length b = 64%nat ->
  exists b',
    DoApplyAction_captures b player move dirs = Ok b' /\
    length b' = 64%nat /\
    (forall i, flanked_in b player move dirs i -> board_read b' i = Ok cell) /\
    (forall i, 0 <= i -> ~ flanked_in b player move dirs i ->
       board_read b' i = board_read b i) /\
    disks b' kEmpty = disks b kEmpty /\
    disks b' cell = disks b cell + flank_sum b player move dirs /\
    (forall c, c <> cell -> c <> kEmpty ->
       disks b' c = disks b c - flank_sum b player move dirs).
Proof.
  intros Hcell Hmove.
  pose proof (PlayerToState_not_empty _ _ Hcell) as Hne.
  assert (Hp : valid_player player) by (apply valid_player_PlayerToState; eauto).
  induction dirs as [|d rest IH]; intros b Hnodup Hlen.
  { exists b. cbn [DoApplyAction_captures flank_sum foldr].
    split; [reflexivity | split; [exact Hlen | split; [|split; [|split; [|split]]]]].
    - intros i (dir & k & [] & _).
    - reflexivity.
    - reflexivity.
    - lia.
    - intros c _ _. lia. }
  apply List.NoDup_cons_iff in Hnodup as [Hnotin Hnodup].
  cbn [DoApplyAction_captures flank_sum foldr].
  fold (flank_sum b player move rest).
  destruct (CountSteps_total b player move d Hlen Hp Hmove) as [steps Hsteps].
  assert (Hflank_d : flank b player move d = steps)
    by (unfold flank; rewrite Hsteps; reflexivity).
  pose proof (flank_nonneg b player move d) as Hsteps0.
  rewrite Hsteps. cbn [bind]. rewrite Hflank_d.
  destruct (steps >? 0) eqn:Hpos.
  - (* a capture in direction [d] *)
    destruct (flank_positive b player cell move d Hcell ltac:(lia)) as [_ Hrun].
    rewrite Hflank_d in Hrun.
    destruct (Capture_loop_run cell d _ b _ _ Hlen Hrun)
      as (b1 & Hcap & Hlen1 & Hflip1 & Hframe1).
    destruct (Capture_loop_counts cell d _ b b1 _ _ Hne Hcap)
      as (_ & He1 & Ho1 & Hopp1).
    rewrite (Capture_unfold b player cell) by assumption.
    rewrite Hcap. cbn [bind].
    assert (Hon_d : forall k, (1 <= k)%nat -> Z.of_nat k <= steps ->
                      walk_on_board move d k = true).
    { intros k Hk Hle. rewrite <- Hflank_d in Hle.
      apply (flank_cells b player cell move d k Hcell Hk Hle). }
    assert (Hsame : forall d', In d' rest ->
              CountSteps b1 player move d' = CountSteps b player move d').
    { intros d' Hin. apply CountSteps_agree. intros k' Hk' Hon'.
      rewrite !walk_cell_index. apply Hframe1.
      - apply walk_on_board_index in Hon'. lia.
      - intros k Hk. rewrite <- walk_S.
        apply (walk_index_disjoint move d' d k' (S k));
          [congruence | lia | lia | exact Hon' | apply Hon_d; lia]. }
    assert (Hflanks : forall d', In d' rest ->
              flank b1 player move d' = flank b player move d')
      by (intros d' Hin; unfold flank; rewrite (Hsame d' Hin); reflexivity).
    destruct (IH b1 Hnodup Hlen1) as (b' & Hloop & Hlen' & Hflip & Hframe & He & Ho & Hopp).
    rewrite (flank_sum_ext b1 b player move rest Hsame) in Ho, Hopp.
    exists b'. split; [exact Hloop | split; [exact Hlen'|]].
    split; [|split; [|split; [lia | split; [lia|]]]].
    + intros i (dir & k & [<-|Hin] & Hk & Hle & ->).
      * rewrite Hflank_d in Hle. rewrite Hframe.
        -- destruct k as [|k]; [lia|].
           unfold walk_index_of. rewrite walk_S. apply Hflip1. lia.
        -- pose proof (walk_on_board_index move d k (Hon_d k Hk Hle)). lia.
        -- intros (d' & k' & Hin' & Hk' & Hle' & Heq).
           apply (walk_index_disjoint move d d' k k');
             [congruence | exact Hk | exact Hk' | apply Hon_d; assumption | | exact Heq].
           apply (flank_cells b1 player cell move d' k' Hcell Hk' Hle').
      * apply Hflip. exists dir, k. rewrite (Hflanks dir Hin). auto.
    + intros i Hi Hnot. rewrite Hframe; [apply Hframe1; [exact Hi|] | exact Hi |].
      * intros k Hk Heq. apply Hnot. exists d, (S k).
        split; [left; reflexivity | split; [lia | split; [lia|]]].
        unfold walk_index_of. rewrite walk_S. exact Heq.
      * intros (d' & k' & Hin' & Hk' & Hle' & Heq). apply Hnot.
        exists d', k'. rewrite <- (Hflanks d' Hin').
        split; [right; exact Hin' | auto].
    + intros c Hc Hc0. rewrite (Hopp c Hc Hc0), (Hopp1 c Hc Hc0). lia.
  - (* no capture in direction [d] *)
    assert (steps = 0) as -> by lia.
    destruct (IH b Hnodup Hlen) as (b' & Hloop & Hlen' & Hflip & Hframe & He & Ho & Hopp).
    exists b'. split; [exact Hloop | split; [exact Hlen'|]].
    split; [|split; [|split; [lia | split; [lia|]]]].
    + intros i (dir & k & [<-|Hin] & Hk & Hle & ->); [lia|].
      apply Hflip. exists dir, k. auto.
    + intros i Hi Hnot. apply Hframe; [exact Hi|].
      intros (d' & k' & Hin' & Hrest). apply Hnot. exists d', k'.
      split; [right; exact Hin' | exact Hrest].
    + intros c Hc Hc0. rewrite (Hopp c Hc Hc0). lia.
Qed.

Lemma flanked_in_insert_move (b : Board) (player : Player) (move : Z)
    (c : CellState) (dirs : list Direction) (i : Z) :
  flanked_in (<[Z.to_nat move := c]> b) player move dirs i <->
  flanked_in b player move dirs i.
Proof.
  unfold flanked_in, flank.
  split; intros (dir & k & H); exists dir, k;
    [rewrite CountSteps_insert_move in H | rewrite CountSteps_insert_move];
    exact H.
Qed.

Lemma flanked_not_move (b : Board) (player : Player) (move : Z)
    (dirs : list Direction) :
  0 <= move < 64 -> ~ flanked_in b player move dirs move.
Proof.
  intros Hmove (dir & k & _ & Hk & _ & Heq).
  rewrite walk_index_of_eq in Heq by exact Hmove.
  pose proof (index_step_nonzero dir). nia.
Qed.

(** The board that [DoApplyAction] makes of a board whose cell [move] is
    empty. *)
Lemma DoApplyAction_board_effect (b : Board) (player : Player)
    (cell : CellState) (move : Z) :
  length b = 64%nat -> PlayerToState player = Ok cell ->
  board_read b move = Ok kEmpty ->
  exists b',
    DoApplyAction_board b player move = Ok b' /\
    length b' = 64%nat /\
    board_read b' move = Ok cell /\
    (forall i, flanked b player move i -> board_read b' i = Ok cell) /\
    (forall i, 0 <= i -> i <> move -> ~ flanked b player move i ->
       board_read b' i = board_read b i) /\
    disks b' kEmpty = disks b kEmpty - 1 /\
    disks b' cell = disks b cell + 1 + flips b player move /\
    (forall c, c <> cell -> c <> kEmpty ->
       disks b' c = disks b c - flips b player move).
Proof.
  intros Hlen Hcell Hempty.
  pose proof (board_read_range _ _ _ Hempty) as Hmove. rewrite Hlen in Hmove.
  pose proof (PlayerToState_not_empty _ _ Hcell) as Hne.
  apply board_read_lookup in Hempty as [_ Hempty].
  set (b1 := <[Z.to_nat move := cell]> b).
  assert (Hlen1 : length b1 = 64%nat) by (unfold b1; rewrite length_insert; exact Hlen).
  destruct (DoApplyAction_captures_spec player cell move all_directions Hcell
              ltac:(lia) b1 all_directions_NoDup Hlen1)
    as (b' & Hloop & Hlen' & Hflip & Hframe & He & Ho & Hopp).
  assert (Hsum : flank_sum b1 player move all_directions = flips b player move).
  { apply flank_sum_ext. intros dir _. apply CountSteps_insert_move. }
  rewrite Hsum in Ho, Hopp.
  exists b'. split; [|split; [exact Hlen'|]].
  { unfold DoApplyAction_board. rewrite Hcell. cbn [bind].
    rewrite board_write_Ok by lia. cbn [bind]. exact Hloop. }
  split; [|split; [|split; [|split; [|split]]]].
  - rewrite Hframe; [apply board_read_insert_eq; lia | lia |].
    apply flanked_not_move. lia.
  - intros i Hi. apply Hflip. apply flanked_in_insert_move. exact Hi.
  - intros i Hi Hne' Hnot. rewrite Hframe; [|exact Hi|].
    + apply board_read_insert_ne; [lia | exact Hi | congruence].
    + intros H. apply Hnot. apply flanked_in_insert_move in H. exact H.
  - rewrite He. unfold b1. rewrite (disks_insert _ _ _ _ _ Hempty).
    replace (CellState_eqb cell kEmpty) with false
      by (symmetry; apply CellState_eqb_neq; exact Hne).
    simpl. lia.
  - rewrite Ho. unfold b1. rewrite (disks_insert _ _ _ _ _ Hempty).
    rewrite CellState_eqb_refl.
    replace (CellState_eqb kEmpty cell) with false
      by (symmetry; apply CellState_eqb_neq; congruence).
    lia.
  - intros c Hc Hc0. rewrite (Hopp c Hc Hc0). unfold b1.
    rewrite (disks_insert _ _ _ _ _ Hempty).
    replace (CellState_eqb cell c) with false
      by (symmetry; apply CellState_eqb_neq; congruence).
    replace (CellState_eqb kEmpty c) with false
      by (symmetry; apply CellState_eqb_neq; congruence).
    lia.
Qed.

(** The board of the state that [DoApplyAction] returns for a valid
    action. *)
Lemma DoApplyAction_valid_board (s : OthelloState) (move : Z) :
  length (board_ s) = 64%nat ->
  ValidAction (board_ s) (current_player_ s) move = Ok true ->
  exists s',
    DoApplyAction s move = Ok s' /\
    DoApplyAction_board (board_ s) (current_player_ s) move = Ok (board_ s').
Proof.
  intros Hlen Hvalid.
  destruct (DoApplyAction_valid s move Hlen Hvalid)
    as (b & ended & Hb & _ & _ & Happly).
  eexists. split; [exact Happly|]. destruct ended; exact Hb.
Qed.

(** X9. A regular move changes the board in this way and no other: the
    cell of the move, empty before, holds the player's colour; every cell
    that the move flanks in one of the eight directions (the cells that
    [CountSteps] counts on the board before the move) held the opponent's
    colour and holds the player's colour; every other cell is as it
    was.  So no disc leaves the board and no other empty cell is filled. *)
Theorem DoApplyAction_cells (s : OthelloState) (move : Z) (cell : CellState) :
  length (board_ s) = 64%nat ->
  PlayerToState (current_player_ s) = Ok cell ->
  ValidAction (board_ s) (current_player_ s) move = Ok true ->
  exists s',
    DoApplyAction s move = Ok s' /\
    board_read (board_ s) move = Ok kEmpty /\
    board_read (board_ s') move = Ok cell /\
    forall i, 0 <= i < 64 -> i <> move ->
      (flanked (board_ s) (current_player_ s) move i ->
         opposing cell (board_read (board_ s) i) /\
         board_read (board_ s') i = Ok cell) /\
      (~ flanked (board_ s) (current_player_ s) move i ->
         board_read (board_ s') i = board_read (board_ s) i).
Proof.
  intros Hlen Hcell Hvalid.
  destruct (DoApplyAction_valid_board s move Hlen Hvalid) as (s' & Happly & Hboard).
  pose proof (proj1 (proj1 (ValidAction_true _ _ _) Hvalid)) as Hempty.
  destruct (DoApplyAction_board_effect _ _ cell move Hlen Hcell Hempty)
    as (b' & Hb' & _ & Hmove & Hflip & Hframe & _).
  rewrite Hboard in Hb'. injection Hb' as <-.
  exists s'. split; [exact Happly | split; [exact Hempty | split; [exact Hmove|]]].
  intros i Hi Hne. split.
  - intros Hflanked. split; [|apply Hflip; exact Hflanked].
    destruct Hflanked as (dir & k & _ & Hk & Hle & ->).
    rewrite <- walk_cell_index.
    apply (flank_cells _ _ cell move dir k Hcell Hk Hle).
  - intros Hnot. apply Hframe; [lia | exact Hne | exact Hnot].
Qed.

Lemma DoApplyAction_cells_witness :
  exists s',
    DoApplyAction NewInitialState 19 = Ok s' /\
    board_read (board_ NewInitialState) 19 = Ok kEmpty /\
    board_read (board_ s') 19 = Ok kBlack /\
    forall i, 0 <= i < 64 -> i <> 19 ->
      (flanked (board_ NewInitialState) (current_player_ NewInitialState) 19 i ->
         opposing kBlack (board_read (board_ NewInitialState) i) /\
         board_read (board_ s') i = Ok kBlack) /\
      (~ flanked (board_ NewInitialState) (current_player_ NewInitialState) 19 i ->
         board_read (board_ s') i = board_read (board_ NewInitialState) i).
Proof.
  apply (DoApplyAction_cells NewInitialState 19 kBlack); reflexivity.
Defined.

(** X10. A regular move fills one empty cell and flips at least one
    disc: with [flips] the sum over the eight directions of the counts of
    [CountSteps] on the board before the move, [flips >= 1], the player
    who moves has [1 + flips] discs more, the opponent [flips] discs
    less, and the board one empty cell less; [DiskCount] returns these
    numbers. *)
Theorem DoApplyAction_counts (s : OthelloState) (move : Z) :
  length (board_ s) = 64%nat ->
  ValidAction (board_ s) (current_player_ s) move = Ok true ->
  exists s' own opp,
    DoApplyAction s move = Ok s' /\
    PlayerToState (current_player_ s) = Ok own /\
    PlayerToState (1 - current_player_ s) = Ok opp /\
    1 <= flips (board_ s) (current_player_ s) move /\
    disks (board_ s') kEmpty = disks (board_ s) kEmpty - 1 /\
    DiskCount (board_ s) (current_player_ s) = Ok (disks (board_ s) own) /\
    DiskCount (board_ s) (1 - current_player_ s) = Ok (disks (board_ s) opp) /\
    DiskCount (board_ s') (current_player_ s) =
      Ok (disks (board_ s) own + 1 + flips (board_ s) (current_player_ s) move) /\
    DiskCount (board_ s') (1 - current_player_ s) =
      Ok (disks (board_ s) opp - flips (board_ s) (current_player_ s) move).
Proof.
  intros Hlen Hvalid.
  destruct (DoApplyAction_valid_board s move Hlen Hvalid) as (s' & Happly & Hboard).
  destruct (ValidAction_true_inv _ _ _ Hlen Hvalid) as (Hmove & Hp & _).
  apply ValidAction_true in Hvalid as [Hempty Hcan].
  apply CanCapture_true in Hcan as (_ & dir & steps & Hsteps & Hne).
  assert (Hflips : 1 <= flips (board_ s) (current_player_ s) move).
  { pose proof (proj2 (flank_sum_nonneg (board_ s) (current_player_ s) move
                         all_directions) dir (all_directions_complete dir)) as Hle.
    pose proof (flank_nonneg (board_ s) (current_player_ s) move dir) as H0.
    unfold flips. unfold flank in Hle at 1. unfold flank in H0.
    rewrite Hsteps in Hle, H0. lia. }
  assert (exists own opp,
            PlayerToState (current_player_ s) = Ok own /\
            PlayerToState (1 - current_player_ s) = Ok opp /\
            opp <> own /\ opp <> kEmpty) as (own & opp & Hown & Hopp & Hdiff & Hopp0).
  { destruct Hp as [-> | ->]; [exists kBlack, kWhite | exists kWhite, kBlack];
      repeat split; discriminate. }
  destruct (DoApplyAction_board_effect _ _ own move Hlen Hown Hempty)
    as (b' & Hb' & Hlen' & _ & _ & _ & He & Ho & Hothers).
  rewrite Hboard in Hb'. injection Hb' as <-.
  exists s', own, opp.
  split; [exact Happly | split; [exact Hown | split; [exact Hopp|]]].
  split; [exact Hflips | split; [exact He|]].
  rewrite (DiskCount_disks (board_ s) _ own Hlen Hown).
  rewrite (DiskCount_disks (board_ s) _ opp Hlen Hopp).
  rewrite (DiskCount_disks (board_ s') _ own Hlen' Hown).
  rewrite (DiskCount_disks (board_ s') _ opp Hlen' Hopp).
  rewrite Ho, (Hothers opp Hdiff Hopp0). auto.
Qed.

Lemma DoApplyAction_counts_witness :
  exists s' own opp,
    DoApplyAction NewInitialState 19 = Ok s' /\
    PlayerToState (current_player_ NewInitialState) = Ok own /\
    PlayerToState (1 - current_player_ NewInitialState) = Ok opp /\
    1 <= flips (board_ NewInitialState) (current_player_ NewInitialState) 19 /\
    disks (board_ s') kEmpty = disks (board_ NewInitialState) kEmpty - 1 /\
    DiskCount (board_ NewInitialState) (current_player_ NewInitialState)
      = Ok (disks (board_ NewInitialState) own) /\
    DiskCount (board_ NewInitialState) (1 - current_player_ NewInitialState)
      = Ok (disks (board_ NewInitialState) opp) /\
    DiskCount (board_ s') (current_player_ NewInitialState) =
      Ok (disks (board_ NewInitialState) own + 1
          + flips (board_ NewInitialState) (current_player_ NewInitialState) 19) /\
    DiskCount (board_ s') (1 - current_player_ NewInitialState) =
      Ok (disks (board_ NewInitialState) opp
          - flips (board_ NewInitialState) (current_player_ NewInitialState) 19).
Proof.
  apply (DoApplyAction_counts NewInitialState 19); reflexivity.
Defined.

(** ** The course of a game *)

Lemma reachable_play (moves : list Z) :
  forall s s', reachable s -> play s moves = Ok s' -> reachable s'.
Proof.
  induction moves as [|move rest IH]; intros s s' Hs Hplay; simpl in Hplay.
  - injection Hplay as <-. exact Hs.
  - apply bind_Ok in Hplay as (s1 & Hs1 & Hplay).
    apply (IH s1 s'); [|exact Hplay].
    exact (reachable_apply s s1 move Hs Hs1).
Qed.

(** A regular action that [DoApplyAction] accepts is a valid action. *)
Lemma DoApplyAction_Ok_valid (s s' : OthelloState) (move : Z) :
  DoApplyAction s move = Ok s' -> move <> kPassMove ->
  ValidAction (board_ s) (current_player_ s) move = Ok true.
Proof.
  unfold DoApplyAction. intros Happly Hpass%Z.eqb_neq. rewrite Hpass in Happly.
  apply bind_Ok in Happly as ([|] & Hvalid & H); [exact Hvalid | discriminate].
Qed.

Lemma DoApplyAction_pass_eq (s : OthelloState) :
  DoApplyAction s kPassMove =
    Ok {| board_ := board_ s;
          current_player_ := 1 - current_player_ s;
          outcome_ := outcome_ s |}.
Proof. reflexivity. Qed.

(** With no regular move for either player no action is valid. *)
Lemma NoValidActions_not_valid (b : Board) (player : Player) (move : Z) :
  length b = 64%nat -> valid_player player ->
  NoValidActions b = Ok true -> ValidAction b player move <> Ok true.
Proof.
  intros Hlen Hp Hnone Hvalid.
  apply (NoValidActions_true b Hlen) in Hnone as [H0 H1].
  destruct (ValidAction_true_inv _ _ _ Hlen Hvalid) as (Hmove & _ & _).
  assert (Hnil : LegalRegularActions b player = Ok [])
    by (destruct Hp as [-> | ->]; assumption).
  apply LegalRegularActions_Ok in Hnil as [_ Hin].
  apply (proj2 (Hin move)). split; assumption.
Qed.

(** In every state of a game the outcome is decided exactly when neither
    player has a regular move. *)
Lemma reachable_NoValidActions (s : OthelloState) :
  reachable s -> NoValidActions (board_ s) = Ok (IsTerminal s).
Proof.
  induction 1 as [|s s' move Hs IH Happly]; [reflexivity|].
  destruct (reachable_state_ok s Hs) as [Hlen Hp].
  destruct (Z.eq_dec move kPassMove) as [->|Hpass].
  - rewrite DoApplyAction_pass_eq in Happly. injection Happly as <-. exact IH.
  - pose proof (DoApplyAction_Ok_valid s s' move Happly Hpass) as Hvalid.
    destruct (DoApplyAction_valid s move Hlen Hvalid)
      as (b & ended & _ & _ & Hended & Happly').
    rewrite Happly' in Happly. injection Happly as <-.
    destruct ended; cbn [board_].
    + rewrite Hended. unfold IsTerminal. cbn [outcome_].
      destruct (disks b kBlack >? disks b kWhite);
        [|destruct (disks b kBlack <? disks b kWhite)]; reflexivity.
    + rewrite Hended. unfold IsTerminal. cbn [outcome_].
      destruct (IsTerminal s) eqn:Hterm.
      * exfalso. exact (NoValidActions_not_valid _ _ move Hlen Hp IH Hvalid).
      * unfold IsTerminal in Hterm. rewrite Hterm. reflexivity.
Qed.

(** X11. In every state of a game (the opening position and the states
    that [DoApplyAction] makes of it) [IsTerminal] is true exactly when
    neither player has a regular move on the board: [NoValidActions]
    returns the value of [IsTerminal]. *)
Theorem reachable_terminal_iff_no_moves (s : OthelloState) :
  reachable s -> NoValidActions (board_ s) = Ok (IsTerminal s).
Proof. apply reachable_NoValidActions. Qed.

(** The shortest game: after nine moves White has no disc left. *)
Lemma reachable_terminal_iff_no_moves_witness :
  exists s,
    play NewInitialState [44; 29; 20; 45; 38; 43; 52; 37; 34] = Ok s /\
    NoValidActions (board_ s) = Ok (IsTerminal s) /\ IsTerminal s = true.
Proof.
  eexists. split; [vm_compute; reflexivity|]. split; [|reflexivity].
  apply reachable_terminal_iff_no_moves.
  apply (reachable_play [44; 29; 20; 45; 38; 43; 52; 37; 34] NewInitialState);
    [apply reachable_initial | vm_compute; reflexivity].
Defined.

(** X12. A game that has ended stays ended: in a terminal state of a
    game [DoApplyAction] ends in the fatal error of an invalid move for
    every cell of the board, and the only action it accepts is Pass,
    which leaves the board and the outcome as they are; [LegalActions]
    returns the empty list. *)
Theorem reachable_terminal_final (s : OthelloState) :
  reachable s -> IsTerminal s = true ->
  (forall move, 0 <= move < 64 ->
     DoApplyAction s move = Err (SpielFatalError InvalidMove)) /\
  (forall move s', DoApplyAction s move = Ok s' ->
     move = kPassMove /\ board_ s' = board_ s /\ outcome_ s' = outcome_ s /\
     IsTerminal s' = true) /\
  LegalActions s = Ok [].
Proof.
  intros Hs Hterm. destruct (reachable_state_ok s Hs) as [Hlen Hp].
  pose proof (reachable_NoValidActions s Hs) as Hnone. rewrite Hterm in Hnone.
  split; [|split].
  - intros move Hmove. unfold DoApplyAction.
    replace (move =? kPassMove) with false
      by (unfold kPassMove, kNumCells, kNumRows, kNumCols; lia).
    destruct (ValidAction_total (board_ s) (current_player_ s) move Hlen Hp Hmove)
      as [[|] Hvalid].
    + exfalso. exact (NoValidActions_not_valid _ _ move Hlen Hp Hnone Hvalid).
    + rewrite Hvalid. reflexivity.
  - intros move s' Happly.
    destruct (Z.eq_dec move kPassMove) as [->|Hpass].
    + rewrite DoApplyAction_pass_eq in Happly. injection Happly as <-.
      repeat split. exact Hterm.
    + exfalso. pose proof (DoApplyAction_Ok_valid s s' move Happly Hpass) as Hvalid.
      exact (NoValidActions_not_valid _ _ move Hlen Hp Hnone Hvalid).
  - unfold LegalActions. rewrite Hterm. reflexivity.
Qed.

Lemma reachable_terminal_final_witness :
  exists s,
    play NewInitialState [44; 29; 20; 45; 38; 43; 52; 37; 34] = Ok s /\
    DoApplyAction s 0 = Err (SpielFatalError InvalidMove) /\
    LegalActions s = Ok [].
Proof.
  eexists. split; [vm_compute; reflexivity|].
  match goal with |- DoApplyAction ?s _ = _ /\ _ =>
    destruct (reachable_terminal_final s) as (Hcells & _ & Hlegal)
  end.
  - apply (reachable_play [44; 29; 20; 45; 38; 43; 52; 37; 34] NewInitialState);
      [apply reachable_initial | vm_compute; reflexivity].
  - reflexivity.
  - split; [apply Hcells; lia | exact Hlegal].
Defined.

(** X13. In a state of a game in which [LegalActions] returns Pass
    alone, applying Pass gives a state in which [LegalActions] returns at
    least one move, and only cells of the board: a player who has to
    pass hands the move to a player who can play. *)
Theorem reachable_pass_then_move (s : OthelloState) :
  reachable s -> LegalActions s = Ok [kPassMove] ->
  exists s' moves,
    DoApplyAction s kPassMove = Ok s' /\
    LegalActions s' = Ok moves /\
    moves <> [] /\
    forall move, In move moves -> 0 <= move < 64.
Proof.
  intros Hs Hlegal. destruct (reachable_state_ok s Hs) as [Hlen Hp].
  pose proof (reachable_NoValidActions s Hs) as Hnone.
  unfold LegalActions in Hlegal.
  destruct (IsTerminal s) eqn:Hterm; [discriminate|].
  apply bind_Ok in Hlegal as (regular & Hregular & Hpass).
  assert (regular = []) as ->.
  { destruct regular as [|m regular]; [reflexivity|]. simpl in Hpass.
    injection Hpass as -> ->.
    apply LegalRegularActions_Ok in Hregular as [_ Hin].
    destruct (proj1 (Hin kPassMove) (or_introl eq_refl)) as [Hrange _].
    unfold kPassMove, kNumCells, kNumRows, kNumCols in Hrange. lia. }
  assert (Hq : valid_player (1 - current_player_ s))
    by (unfold valid_player in *; lia).
  destruct (LegalRegularActions_total (board_ s) (1 - current_player_ s) Hlen Hq)
    as (moves & Hmoves & _ & Hin).
  assert (Hsome : moves <> []).
  { intros ->. unfold NoValidActions in Hnone.
    destruct Hp as [Hcp|Hcp]; rewrite Hcp in *;
      [change (1 - 0) with 1 in Hmoves | change (1 - 1) with 0 in Hmoves];
      rewrite Hregular, Hmoves in Hnone; cbn [bind is_empty] in Hnone;
      discriminate. }
  eexists. exists moves. split; [apply DoApplyAction_pass_eq|].
  unfold LegalActions, IsTerminal in *. cbn [outcome_ board_ current_player_].
  rewrite Hterm, Hmoves. cbn [bind].
  split; [destruct moves; [congruence | reflexivity]|].
  split; [exact Hsome|]. intros move Hmove. apply Hin. exact Hmove.
Qed.

(** After eight moves from the opening position White has to pass, and
    Black can play. *)
Lemma reachable_pass_then_move_witness :
  exists s s' moves,
    play NewInitialState [19; 18; 17; 9; 37; 16; 0; 2] = Ok s /\
    DoApplyAction s kPassMove = Ok s' /\
    LegalActions s' = Ok moves /\
    moves <> [] /\
    forall move, In move moves -> 0 <= move < 64.
Proof.
  eexists.
  match goal with |- exists s' moves, play _ _ = Ok ?s /\ _ =>
    destruct (reachable_pass_then_move s) as (s' & moves & H)
  end.
  - apply (reachable_play [19; 18; 17; 9; 37; 16; 0; 2] NewInitialState);
      [apply reachable_initial | vm_compute; reflexivity].
  - vm_compute. reflexivity.
  - exists s', moves. split; [vm_compute; reflexivity | exact H].
Defined.

(** X14. [DoApplyAction] accepts a cell of the board exactly when
    [LegalRegularActions] lists it for the current player, whatever the
    outcome field holds: it returns a state for the cells of the list and
    ends in the fatal error of an invalid move for every other cell (a
    cell that is not empty or that flanks nothing). *)
Theorem DoApplyAction_accepts (s : OthelloState) (move : Z) :
  length (board_ s) = 64%nat ->
  valid_player (current_player_ s) ->
  0 <= move < 64 ->
  exists regular,
    LegalRegularActions (board_ s) (current_player_ s) = Ok regular /\
    (In move regular -> exists s', DoApplyAction s move = Ok s') /\
    (~ In move regular ->
       DoApplyAction s move = Err (SpielFatalError InvalidMove)).
Proof.
  intros Hlen Hp Hmove.
  destruct (LegalRegularActions_total _ _ Hlen Hp) as (regular & Hregular & _ & Hin).
  exists regular. split; [exact Hregular|]. split.
  - intros [_ Hvalid]%Hin.
    destruct (DoApplyAction_valid s move Hlen Hvalid) as (b & ended & _ & _ & _ & H).
    eexists. exact H.
  - intros Hnot. unfold DoApplyAction.
    replace (move =? kPassMove) with false
      by (unfold kPassMove, kNumCells, kNumRows, kNumCols; lia).
    destruct (ValidAction_total _ _ move Hlen Hp Hmove) as [[|] Hvalid].
    + exfalso. apply Hnot, Hin. split; assumption.
    + rewrite Hvalid. reflexivity.
Qed.

Lemma DoApplyAction_accepts_witness :
  exists regular,
    LegalRegularActions (board_ NewInitialState) (current_player_ NewInitialState)
      = Ok regular /\
    (In 27 regular -> exists s', DoApplyAction NewInitialState 27 = Ok s') /\
    (~ In 27 regular ->
       DoApplyAction NewInitialState 27 = Err (SpielFatalError InvalidMove)).
Proof.
  apply (DoApplyAction_accepts NewInitialState 27);
    [reflexivity | left; reflexivity | lia].
Defined.

Lemma disks_read (b : Board) (i : Z) (c : CellState) :
  board_read b i = Ok c -> 1 <= disks b c.
Proof.
  intros [_ Hc]%board_read_lookup.
  rewrite <- (take_drop_middle b _ c Hc), disks_app, disks_cons, CellState_eqb_refl.
  pose proof (disks_nonneg (take (Z.to_nat i) b) c).
  pose proof (disks_nonneg (drop (S (Z.to_nat i)) b) c). lia.
Qed.

Lemma game_measure_nonneg (s : OthelloState) : 0 <= game_measure s.
Proof.
  unfold game_measure, has_regular_move.
  pose proof (disks_nonneg (board_ s) kEmpty).
  destruct (LegalRegularActions (board_ s) (current_player_ s))
    as [[|move moves]|e] eqn:Hregular; try lia.
  apply LegalRegularActions_Ok in Hregular as [_ Hin].
  destruct (proj1 (Hin move) (or_introl eq_refl)) as [_ Hvalid].
  apply ValidAction_true in Hvalid as [Hempty _].
  apply disks_read in Hempty. lia.
Qed.

(** When the player to move of an unfinished game has no regular move,
    the other player has one. *)
Lemma reachable_other_moves (s : OthelloState) :
  reachable s -> IsTerminal s = false ->
  LegalRegularActions (board_ s) (current_player_ s) = Ok [] ->
  exists move moves,
    LegalRegularActions (board_ s) (1 - current_player_ s) = Ok (move :: moves).
Proof.
  intros Hs Hterm Hregular. destruct (reachable_state_ok s Hs) as [Hlen Hp].
  pose proof (reachable_NoValidActions s Hs) as Hnone. rewrite Hterm in Hnone.
  assert (Hq : valid_player (1 - current_player_ s))
    by (unfold valid_player in *; lia).
  destruct (LegalRegularActions_total (board_ s) (1 - current_player_ s) Hlen Hq)
    as ([|move moves] & Hmoves & _); [|eauto].
  exfalso. unfold NoValidActions in Hnone.
  destruct Hp as [Hcp|Hcp]; rewrite Hcp in *;
    [change (1 - 0) with 1 in Hmoves | change (1 - 1) with 0 in Hmoves];
    rewrite Hregular, Hmoves in Hnone; cbn [bind is_empty] in Hnone;
    discriminate.
Qed.

(** An action that [LegalActions] returns is accepted and leads to a
    state of smaller measure. *)
Lemma legal_step_measure (s : OthelloState) (moves : list Z) (move : Z) :
  reachable s -> LegalActions s = Ok moves -> In move moves ->
  exists s',
    DoApplyAction s move = Ok s' /\ 0 <= game_measure s' < game_measure s.
Proof.
  intros Hs Hlegal Hin. destruct (reachable_state_ok s Hs) as [Hlen Hp].
  unfold LegalActions in Hlegal.
  destruct (IsTerminal s) eqn:Hterm; [injection Hlegal as <-; destruct Hin|].
  apply bind_Ok in Hlegal as (regular & Hregular & [= <-]).
  destruct regular as [|first regular].
  - (* Pass *)
    destruct Hin as [<-|[]].
    destruct (reachable_other_moves s Hs Hterm Hregular) as (m & ms & Hother).
    eexists. split; [apply DoApplyAction_pass_eq|].
    unfold game_measure, has_regular_move. cbn [board_ current_player_].
    rewrite Hregular, Hother.
    apply LegalRegularActions_Ok in Hother as [_ Hm].
    destruct (proj1 (Hm m) (or_introl eq_refl)) as [_ Hvalid].
    apply ValidAction_true in Hvalid as [Hempty _].
    apply disks_read in Hempty. lia.
  - (* a regular move *)
    cbn [is_empty] in Hin.
    pose proof (proj2 (LegalRegularActions_Ok _ _ _ Hregular)) as Hvalid.
    apply Hvalid in Hin as [Hmove Hvalid'].
    destruct (DoApplyAction_valid_board s move Hlen Hvalid') as (s' & Happly & Hboard).
    destruct (proj1 (valid_player_PlayerToState _) Hp) as [cell Hcell].
    destruct (DoApplyAction_board_effect _ _ cell move Hlen Hcell
                (proj1 (proj1 (ValidAction_true _ _ _) Hvalid')))
      as (b' & Hb' & _ & _ & _ & _ & He & _).
    rewrite Hboard in Hb'. injection Hb' as <-.
    exists s'. split; [exact Happly|].
    pose proof (game_measure_nonneg s') as Hnonneg.
    split; [exact Hnonneg|].
    unfold game_measure in *. unfold has_regular_move at 2.
    rewrite Hregular, He.
    destruct (has_regular_move s'); lia.
Qed.

(** X15. In a state of a game, each action that [LegalActions] returns
    (Pass included) is accepted by [DoApplyAction] and leads to a state
    whose measure - twice the number of empty cells, less one when the
    player to move has a regular move - is smaller, and not negative. *)
Theorem legal_action_decreases (s : OthelloState) (moves : list Z) (move : Z) :
  reachable s -> LegalActions s = Ok moves -> In move moves ->
  exists s',
    DoApplyAction s move = Ok s' /\ 0 <= game_measure s' < game_measure s.
Proof. apply legal_step_measure. Qed.

Lemma legal_action_decreases_witness :
  exists s',
    DoApplyAction NewInitialState 19 = Ok s' /\
    0 <= game_measure s' < game_measure NewInitialState.
Proof.
  apply (legal_action_decreases NewInitialState [19; 26; 37; 44] 19);
    [apply reachable_initial | reflexivity | simpl; tauto].
Defined.

Lemma legal_game_measure (s s' : OthelloState) (moves : list Z) :
  legal_game s moves s' -> reachable s ->
  reachable s' /\
  Z.of_nat (length moves) <= game_measure s - game_measure s'.
Proof.
  induction 1 as [s|s s1 s' legal move rest Hlegal Hin Happly Hgame IH];
    intros Hs.
  - split; [exact Hs | simpl; lia].
  - destruct (legal_step_measure s legal move Hs Hlegal Hin) as (s2 & Happly' & Hless).
    rewrite Happly in Happly'. injection Happly' as <-.
    destruct (IH (reachable_apply s s1 move Hs Happly)) as [Hs' Hlen].
    split; [exact Hs'|]. simpl length. lia.
Qed.

(** X16. Every game ends: a game from the opening position in which
    every action is one that [LegalActions] returns has at most 119
    actions, passes included, and no action of it fails. *)
Theorem legal_game_length (moves : list Z) (s' : OthelloState) :
  legal_game NewInitialState moves s' ->
  Z.of_nat (length moves) <= 119 /\
  play NewInitialState moves = Ok s'.
Proof.
  intros Hgame. split.
  - destruct (legal_game_measure _ _ _ Hgame reachable_initial) as [_ Hlen].
    pose proof (game_measure_nonneg s').
    change (game_measure NewInitialState) with 119 in Hlen. lia.
  - induction Hgame as [s|s s1 s' legal move rest Hlegal Hin Happly Hgame IH];
      [reflexivity|].
    simpl. rewrite Happly. exact IH.
Qed.

Lemma legal_game_length_witness :
  exists s',
    Z.of_nat (length [19; 18]) <= 119 /\ play NewInitialState [19; 18] = Ok s'.
Proof.
  eexists.
  eapply (legal_game_length [19; 18]).
  eapply legal_game_cons; [vm_compute; reflexivity | simpl; tauto
                          | vm_compute; reflexivity |].
  eapply legal_game_cons; [vm_compute; reflexivity | simpl; tauto
                          | vm_compute; reflexivity |].
  apply legal_game_nil.
Defined.

Lemma reachable_outcome (s : OthelloState) :
  reachable s -> IsTerminal s = true -> outcome_ s = winner (board_ s).
Proof.
  induction 1 as [|s s' move Hs IH Happly]; [discriminate|].
  destruct (reachable_state_ok s Hs) as [Hlen Hp].
  destruct (Z.eq_dec move kPassMove) as [->|Hpass].
  - rewrite DoApplyAction_pass_eq in Happly. injection Happly as <-. exact IH.
  - pose proof (DoApplyAction_Ok_valid s s' move Happly Hpass) as Hvalid.
    destruct (DoApplyAction_valid s move Hlen Hvalid)
      as (b & ended & _ & _ & _ & Happly').
    rewrite Happly' in Happly. injection Happly as <-.
    destruct ended; cbn [board_ outcome_]; [reflexivity|].
    intros Hterm. exfalso.
    change (IsTerminal s = true) in Hterm.
    pose proof (reachable_NoValidActions s Hs) as Hnone. rewrite Hterm in Hnone.
    exact (NoValidActions_not_valid _ _ move Hlen Hp Hnone Hvalid).
Qed.

(** X17. At the end of every game the outcome is the one that the final
    board gives: in a terminal state of a game [Returns] is [{1, -1}]
    when the board holds more discs of player 0 than of player 1,
    [{-1, 1}] when it holds fewer, and [{0, 0}] when it holds as many,
    whatever passes were applied after the last move. *)
Theorem reachable_Returns (s : OthelloState) :
  reachable s -> IsTerminal s = true ->
  DiskCount (board_ s) 0 = Ok (disks (board_ s) kBlack) /\
  DiskCount (board_ s) 1 = Ok (disks (board_ s) kWhite) /\
  (disks (board_ s) kBlack > disks (board_ s) kWhite ->
     Returns s = [1%float; (-1)%float]) /\
  (disks (board_ s) kBlack < disks (board_ s) kWhite ->
     Returns s = [(-1)%float; 1%float]) /\
  (disks (board_ s) kBlack = disks (board_ s) kWhite ->
     Returns s = [0%float; 0%float]).
Proof.
  intros Hs Hterm. destruct (reachable_state_ok s Hs) as [Hlen _].
  pose proof (reachable_outcome s Hs Hterm) as Hout.
  split; [apply DiskCount_disks; [exact Hlen | reflexivity]|].
  split; [apply DiskCount_disks; [exact Hlen | reflexivity]|].
  unfold Returns, winner in *. rewrite Hout.
  destruct (disks (board_ s) kBlack >? disks (board_ s) kWhite) eqn:Hgt;
    [|destruct (disks (board_ s) kBlack <? disks (board_ s) kWhite) eqn:Hlt];
    repeat split; intros; try lia; reflexivity.
Qed.

Lemma reachable_Returns_witness :
  exists s,
    play NewInitialState [44; 29; 20; 45; 38; 43; 52; 37; 34; 64] = Ok s /\
    disks (board_ s) kBlack = 13 /\ disks (board_ s) kWhite = 0 /\
    Returns s = [1%float; (-1)%float].
Proof.
  eexists. split; [vm_compute; reflexivity|].
  split; [reflexivity | split; [reflexivity|]].
  match goal with |- Returns ?s = _ =>
    destruct (reachable_Returns s) as (_ & _ & Hblack & _)
  end.
  - apply (reachable_play [44; 29; 20; 45; 38; 43; 52; 37; 34; 64] NewInitialState);
      [apply reachable_initial | vm_compute; reflexivity].
  - reflexivity.
  - apply Hblack. vm_compute. reflexivity.
Defined.

(** ** The two colours play by the same rules *)

Lemma CellState_eqb_swap (a c : CellState) :
  CellState_eqb (swap_colour a) (swap_colour c) = CellState_eqb a c.
Proof. destruct a, c; reflexivity. Qed.

Lemma CellState_eqb_swap_empty (a : CellState) :
  CellState_eqb (swap_colour a) kEmpty = CellState_eqb a kEmpty.
Proof. destruct a; reflexivity. Qed.

Lemma PlayerToState_swap (player : Player) (cell : CellState) :
  PlayerToState player = Ok cell ->
  PlayerToState (1 - player) = Ok (swap_colour cell).
Proof. intros [[-> ->]|[-> ->]]%PlayerToState_Ok; reflexivity. Qed.

Lemma CountSteps_loop_swap (b : Board) (cell : CellState) (dir : Direction)
    (fuel : nat) :
  forall row col count,
  CountSteps_loop fuel (swap_colours b) (swap_colour cell) dir row col count =
    CountSteps_loop fuel b cell dir row col count.
Proof.
  induction fuel as [|fuel IH]; intros row col count; [reflexivity|].
  cbn [CountSteps_loop]. destruct (OnBoard row col); [|reflexivity].
  rewrite BoardAt_swap_colours.
  destruct (BoardAt b row col) as [here|e]; [|reflexivity]. cbn [bind].
  rewrite CellState_eqb_swap, CellState_eqb_swap_empty.
  destruct (CellState_eqb here cell); [reflexivity|].
  destruct (CellState_eqb here kEmpty); [reflexivity|].
  destruct (GetNext row col dir). apply IH.
Qed.

Lemma CountSteps_swap (b : Board) (player : Player) (move : Z) (dir : Direction) :
  valid_player player ->
  CountSteps (swap_colours b) (1 - player) move dir = CountSteps b player move dir.
Proof.
  intros [cell Hcell]%valid_player_PlayerToState. unfold CountSteps.
  destruct (RowColFromMove move) as [[row col]|e]; [|rewrite !bind_Err; reflexivity].
  rewrite !bind_Ok_eq. destruct (GetNext row col dir) as [row' col'].
  rewrite (PlayerToState_swap _ _ Hcell), Hcell, !bind_Ok_eq.
  apply CountSteps_loop_swap.
Qed.

Lemma CanCapture_loop_swap (b : Board) (player : Player) (move : Z)
    (dirs : list Direction) :
  valid_player player ->
  CanCapture_loop (swap_colours b) (1 - player) move dirs =
    CanCapture_loop b player move dirs.
Proof.
  intros Hp. induction dirs as [|dir dirs IH]; [reflexivity|].
  cbn [CanCapture_loop]. rewrite (CountSteps_swap _ _ _ _ Hp), IH. reflexivity.
Qed.

Lemma ValidAction_swap (b : Board) (player : Player) (move : Z) :
  valid_player player ->
  ValidAction (swap_colours b) (1 - player) move = ValidAction b player move.
Proof.
  intros Hp. unfold ValidAction, CanCapture.
  rewrite board_read_swap_colours.
  destruct (board_read b move) as [here|e]; [|rewrite !bind_Err; reflexivity].
  rewrite !bind_Ok_eq, CellState_eqb_swap_empty.
  destruct (CellState_eqb here kEmpty); [|reflexivity].
  cbn [negb]. apply CanCapture_loop_swap. exact Hp.
Qed.

Lemma LegalRegularActions_swap (b : Board) (player : Player) :
  valid_player player ->
  LegalRegularActions (swap_colours b) (1 - player) = LegalRegularActions b player.
Proof.
  intros Hp. unfold LegalRegularActions. apply for_loop_ext.
  intros cell moves _. rewrite (ValidAction_swap _ _ _ Hp). reflexivity.
Qed.

Lemma board_write_swap (b : Board) (i : Z) (c : CellState) :
  board_write (swap_colours b) i (swap_colour c) = swap_result (board_write b i c).
Proof.
  unfold board_write, swap_colours. rewrite length_fmap.
  destruct ((0 <=? i) && (i <? Z.of_nat (length b))); [|reflexivity].
  cbn [swap_result]. unfold swap_colours. rewrite list_fmap_insert. reflexivity.
Qed.

Lemma Capture_loop_swap (cell : CellState) (dir : Direction) (n : nat) :
  forall (b : Board) (row col : Z),
  Capture_loop n (swap_colours b) (swap_colour cell) dir row col =
    swap_result (Capture_loop n b cell dir row col).
Proof.
  induction n as [|n IH]; intros b row col; [reflexivity|].
  cbn [Capture_loop]. rewrite BoardAt_swap_colours.
  destruct (BoardAt b row col) as [here|e]; [|reflexivity].
  rewrite !bind_Ok_eq, CellState_eqb_swap, CellState_eqb_swap_empty.
  destruct (CellState_eqb here kEmpty || CellState_eqb here cell); [reflexivity|].
  destruct (RowColToMove row col) as [index|e]; [|reflexivity].
  rewrite !bind_Ok_eq, board_write_swap.
  destruct (board_write b index cell) as [b1|e]; [|reflexivity].
  cbn [swap_result]. rewrite !bind_Ok_eq.
  destruct (GetNext row col dir). apply IH.
Qed.

Lemma Capture_swap (b : Board) (player : Player) (move : Z) (dir : Direction)
    (steps : Z) :
  valid_player player ->
  Capture (swap_colours b) (1 - player) move dir steps =
    swap_result (Capture b player move dir steps).
Proof.
  intros [cell Hcell]%valid_player_PlayerToState. unfold Capture.
  destruct (RowColFromMove move) as [[row col]|e]; [|reflexivity].
  rewrite !bind_Ok_eq. destruct (GetNext row col dir) as [row' col'].
  rewrite (PlayerToState_swap _ _ Hcell), Hcell, !bind_Ok_eq.
  apply Capture_loop_swap.
Qed.

Lemma DoApplyAction_captures_swap (player : Player) (move : Z)
    (dirs : list Direction) :
  valid_player player ->
  forall b : Board,
  DoApplyAction_captures (swap_colours b) (1 - player) move dirs =
    swap_result (DoApplyAction_captures b player move dirs).
Proof.
  intros Hp. induction dirs as [|dir dirs IH]; intros b; [reflexivity|].
  cbn [DoApplyAction_captures]. rewrite (CountSteps_swap _ _ _ _ Hp).
  destruct (CountSteps b player move dir) as [steps|e]; [|reflexivity].
  rewrite !bind_Ok_eq. destruct (steps >? 0).
  - rewrite (Capture_swap _ _ _ _ _ Hp).
    destruct (Capture b player move dir steps) as [b1|e]; [|reflexivity].
    cbn [swap_result]. rewrite !bind_Ok_eq. apply IH.
  - rewrite !bind_Ok_eq. apply IH.
Qed.

(** X18. The rules do not tell the colours apart: on the board with the
    colours exchanged the other player has the regular moves that the
    player has on the board, and a move of the other player gives the
    board, with the colours exchanged, that the move of the player gives
    (or ends in the same error). *)
Theorem rules_colour_symmetric (b : Board) (player : Player) (move : Z) :
  valid_player player ->
  LegalRegularActions (swap_colours b) (1 - player) =
    LegalRegularActions b player /\
  DoApplyAction_board (swap_colours b) (1 - player) move =
    swap_result (DoApplyAction_board b player move).
Proof.
  intros Hp. split; [apply LegalRegularActions_swap; exact Hp|].
  pose proof Hp as [cell Hcell]%valid_player_PlayerToState.
  unfold DoApplyAction_board.
  rewrite (PlayerToState_swap _ _ Hcell), Hcell, !bind_Ok_eq, board_write_swap.
  destruct (board_write b move cell) as [placed|e]; [|reflexivity].
  cbn [swap_result]. rewrite !bind_Ok_eq.
  apply DoApplyAction_captures_swap. exact Hp.
Qed.

Lemma rules_colour_symmetric_witness :
  LegalRegularActions (swap_colours (board_ NewInitialState)) (1 - 0) =
    LegalRegularActions (board_ NewInitialState) 0 /\
  DoApplyAction_board (swap_colours (board_ NewInitialState)) (1 - 0) 19 =
    swap_result (DoApplyAction_board (board_ NewInitialState) 0 19).
Proof. apply (rules_colour_symmetric _ 0 19). left. reflexivity. Defined.

(** ** The layout of the board text *)

Lemma string_get_app_l (s1 s2 : string) (n : nat) :
  (n < String.length s1)%nat -> String.get n (s1 +:+ s2) = String.get n s1.
Proof.
  revert n. induction s1 as [|c s1 IH]; intros n Hn; simpl in Hn; [lia|].
  destruct n as [|n]; simpl; [reflexivity | apply IH; lia].
Qed.

Lemma string_get_app_r (s1 s2 : string) (n : nat) :
  String.get (String.length s1 + n) (s1 +:+ s2) = String.get n s2.
Proof. induction s1 as [|c s1 IH]; simpl; [reflexivity | exact IH]. Qed.

Lemma row_upto_step (b : Board) (player : Player) (r : Z) (str0 : string)
    (c : Z) (str : string) (here : CellState) :
  0 <= c -> BoardAt b r c = Ok here ->
  row_upto b player r str0 c str ->
  row_upto b player r str0 (c + 1) (str +:+ StateToString player here +:+ " ").
Proof.
  intros Hc Hhere (Hlen & Hold & Hcells).
  pose proof (StateToString_length player here) as Hglyph.
  split; [|split].
  - rewrite !string_length_append, Hglyph. simpl String.length. lia.
  - intros n Hn. rewrite string_get_app_l by lia. apply Hold. exact Hn.
  - intros col here' n Hcol Hhere' Hn.
    destruct (Z.eq_dec col c) as [->|Hne].
    + assert (here' = here) as -> by congruence.
      replace n with (String.length str + 0)%nat by lia.
      rewrite string_get_app_r. apply string_get_app_l. lia.
    + rewrite string_get_app_l by lia.
      apply (Hcells col here' n); [lia | assumption ..].
Qed.

Lemma text_upto_row (b : Board) (player : Player) (r : Z) (str : string) :
  length b = 64%nat -> 0 <= r < 8 ->
  text_upto b player r str ->
  exists str',
    (let label := String (char_of_int (int_of_char "1" + r)) "" in
     let str := str +:+ label +:+ " " in
     let* str :=
       for_loop (Z.to_nat kNumCols) 0
         (fun c str =>
            let* here := BoardAt b r c in
            Ok (str +:+ StateToString player here +:+ " "))
         str in
     Ok (str +:+ label +:+ newline)) = Ok str' /\
    text_upto b player (r + 1) str'.
Proof.
  intros Hb Hr [Hlen Hcells]. cbv zeta.
  set (label := String (char_of_int (int_of_char "1" + r)) "").
  set (str0 := str +:+ label +:+ " ").
  assert (Hlen0 : Z.of_nat (String.length str0) = 22 + 20 * r).
  { unfold str0, label. rewrite !string_length_append. simpl String.length. lia. }
  destruct (for_loop_total (row_upto b player r str0)
              (fun c str =>
                 let* here := BoardAt b r c in
                 Ok (str +:+ StateToString player here +:+ " "))
              (Z.to_nat kNumCols) 0 str0) as (str1 & -> & Hlen1 & Hold1 & Hcells1).
  - split; [lia | split; [reflexivity|]]. intros; lia.
  - intros c t Hc Ht. change (Z.of_nat (Z.to_nat kNumCols)) with 8 in Hc.
    destruct (BoardAt_total b r c Hb) as [here Hhere]; [apply OnBoard_true; lia|].
    rewrite Hhere. cbn [bind]. eexists. split; [reflexivity|].
    apply row_upto_step; [lia | assumption ..].
  - change (0 + Z.of_nat (Z.to_nat kNumCols)) with 8 in *.
    cbn [bind]. eexists. split; [reflexivity|]. split.
    + rewrite !string_length_append. unfold label, newline.
      simpl String.length. lia.
    + intros row col here n Hrow Hcol Hhere Hn.
      rewrite string_get_app_l by lia.
      destruct (Z.eq_dec row r) as [->|Hne].
      * apply (Hcells1 col here n); [lia | exact Hhere | lia].
      * rewrite Hold1 by lia. unfold str0.
        rewrite string_get_app_l by lia.
        apply (Hcells row col here n); [lia | assumption ..].
Qed.

(** X19. For a board of 64 cells [ToStringForPlayer] returns a text of
    199 characters (a header line, eight lines of the rows and a footer,
    each line but the last ended by a line feed), in which the glyph of
    the cell of row [row] and column [col] is the character at place
    [22 + 20 * row + 2 * col]. *)
Theorem ToStringForPlayer_layout (b : Board) (player : Player) :
  length b = 64%nat ->
  exists str,
    ToStringForPlayer b player = Ok str /\
    String.length str = 199%nat /\
    forall row col here,
      0 <= row < 8 -> 0 <= col < 8 -> BoardAt b row col = Ok here ->
      String.get (Z.to_nat (22 + 20 * row + 2 * col)) str =
        String.get 0 (StateToString player here).
Proof.
  intros Hb. unfold ToStringForPlayer. cbv zeta.
  destruct (for_loop_total (text_upto b player)
              (fun r str =>
                 let label := String (char_of_int (int_of_char "1" + r)) "" in
                 let str := str +:+ label +:+ " " in
                 let* str :=
                   for_loop (Z.to_nat kNumCols) 0
                     (fun c str =>
                        let* here := BoardAt b r c in
                        Ok (str +:+ StateToString player here +:+ " "))
                     str in
                 Ok (str +:+ label +:+ newline))
              (Z.to_nat kNumRows) 0
              ("" +:+ "  a b c d e f g h  " +:+ newline))
    as (str & Hloop & Hlen & Hcells).
  - split; [reflexivity | intros; lia].
  - intros r t Hr Ht. change (Z.of_nat (Z.to_nat kNumRows)) with 8 in Hr.
    apply (text_upto_row b player r t Hb); [lia | exact Ht].
  - change (0 + Z.of_nat (Z.to_nat kNumRows)) with 8 in *.
    cbv zeta in Hloop. rewrite Hloop. cbn [bind].
    eexists. split; [reflexivity|]. split.
    + rewrite string_length_append. simpl String.length. lia.
    + intros row col here Hrow Hcol Hhere.
      rewrite string_get_app_l by lia.
      apply (Hcells row col here); [assumption .. | lia].
Qed.

Lemma ToStringForPlayer_layout_witness :
  exists str,
    ToStringForPlayer (board_ NewInitialState) 0 = Ok str /\
    String.length str = 199%nat /\
    forall row col here,
      0 <= row < 8 -> 0 <= col < 8 ->
      BoardAt (board_ NewInitialState) row col = Ok here ->
      String.get (Z.to_nat (22 + 20 * row + 2 * col)) str =
        String.get 0 (StateToString 0 here).
Proof. apply (ToStringForPlayer_layout (board_ NewInitialState) 0). reflexivity. Defined.

(** ** Edge behaviour of the counts and of the validity test *)

(** X20. On a board of 64 cells [DiskCount] returns for player 0 and
    for player 1 two numbers that are not negative and that, with the
    number of empty cells, add up to 64; for any other player it ends in
    the fatal error of [PlayerToState]. *)
Theorem DiskCount_partition (b : Board) (player : Player) :
  length b = 64%nat ->
  (exists black white,
     DiskCount b 0 = Ok black /\ DiskCount b 1 = Ok white /\
     0 <= black /\ 0 <= white /\
     black + white + disks b kEmpty = 64) /\
  (~ valid_player player ->
     DiskCount b player = Err (SpielFatalError InvalidPlayerId)).
Proof.
  intros Hlen. split.
  - exists (disks b kBlack), (disks b kWhite).
    split; [apply DiskCount_disks; [exact Hlen | reflexivity]|].
    split; [apply DiskCount_disks; [exact Hlen | reflexivity]|].
    pose proof (disks_total b). pose proof (disks_nonneg b kBlack).
    pose proof (disks_nonneg b kWhite). lia.
  - intros Hp. unfold DiskCount, PlayerToState, valid_player in *.
    replace (player =? 0) with false by lia.
    replace (player =? 1) with false by lia. reflexivity.
Qed.

Lemma DiskCount_partition_witness :
  (exists black white,
     DiskCount (board_ NewInitialState) 0 = Ok black /\
     DiskCount (board_ NewInitialState) 1 = Ok white /\
     0 <= black /\ 0 <= white /\
     black + white + disks (board_ NewInitialState) kEmpty = 64) /\
  (~ valid_player 2 ->
     DiskCount (board_ NewInitialState) 2 = Err (SpielFatalError InvalidPlayerId)).
Proof. apply (DiskCount_partition (board_ NewInitialState) 2). reflexivity. Defined.

(** X21. [ValidAction] is false for every cell that is not empty,
    whoever the player is: the player is not looked at.  For an empty
    cell of the board and a player that is neither 0 nor 1 it ends in
    the fatal error of [PlayerToState]; for 0 and 1 it returns whether
    some direction has a non-zero count. *)
Theorem ValidAction_cases (b : Board) (player : Player) (move : Z)
    (here : CellState) :
  board_read b move = Ok here ->
  (here <> kEmpty -> ValidAction b player move = Ok false) /\
  (here = kEmpty -> length b = 64%nat -> ~ valid_player player ->
     ValidAction b player move = Err (SpielFatalError InvalidPlayerId)) /\
  (here = kEmpty -> length b = 64%nat -> valid_player player ->
     exists valid,
       ValidAction b player move = Ok valid /\
       (valid = true <->
        exists dir steps,
          CountSteps b player move dir = Ok steps /\ steps <> 0)).
Proof.
  intros Hhere. split; [|split].
  - intros Hne. unfold ValidAction. rewrite Hhere, bind_Ok_eq.
    apply CellState_eqb_neq in Hne. rewrite Hne. reflexivity.
  - intros -> Hlen Hp.
    pose proof (board_read_range _ _ _ Hhere) as Hmove. rewrite Hlen in Hmove.
    unfold ValidAction, CanCapture. rewrite Hhere, !bind_Ok_eq.
    cbn [CellState_eqb CellState_to_int Z.eqb negb all_directions CanCapture_loop].
    unfold CountSteps. rewrite RowColFromMove_Ok, bind_Ok_eq by lia.
    destruct (GetNext (move / 8) (move mod 8) kUp).
    unfold PlayerToState, valid_player in *.
    replace (player =? 0) with false by lia.
    replace (player =? 1) with false by lia. reflexivity.
  - intros -> Hlen Hp.
    pose proof (board_read_range _ _ _ Hhere) as Hmove. rewrite Hlen in Hmove.
    destruct (ValidAction_total b player move Hlen Hp ltac:(lia)) as [valid Hvalid].
    exists valid. split; [exact Hvalid|]. split.
    + intros ->. apply ValidAction_true in Hvalid as [_ Hcan].
      apply CanCapture_true in Hcan as [_ Hdir]. exact Hdir.
    + intros (dir & steps & Hsteps & Hne).
      destruct valid; [reflexivity|]. exfalso.
      unfold ValidAction, CanCapture in Hvalid.
      rewrite Hhere, !bind_Ok_eq in Hvalid.
      cbn [CellState_eqb CellState_to_int Z.eqb negb] in Hvalid.
      assert (Hall : forall dirs, In dir dirs ->
                CanCapture_loop b player move dirs <> Ok false).
      { induction dirs as [|d dirs IH]; intros Hin; [destruct Hin|].
        cbn [CanCapture_loop]. destruct Hin as [->|Hin].
        - rewrite Hsteps, bind_Ok_eq. apply Z.eqb_neq in Hne. rewrite Hne.
          discriminate.
        - destruct (CountSteps b player move d) as [n|e]; [|discriminate].
          rewrite bind_Ok_eq. destruct (negb (n =? 0)); [discriminate|].
          apply IH. exact Hin. }
      exact (Hall all_directions (all_directions_complete dir) Hvalid).
Qed.

Lemma ValidAction_cases_witness :
  ValidAction (board_ NewInitialState) 7 27 = Ok false /\
  ValidAction (board_ NewInitialState) 7 0 = Err (SpielFatalError InvalidPlayerId).
Proof.
  split.
  - apply (proj1 (ValidAction_cases (board_ NewInitialState) 7 27 kWhite eq_refl)).
    discriminate.
  - apply (proj1 (proj2 (ValidAction_cases (board_ NewInitialState) 7 0 kEmpty
                           eq_refl)));
      [reflexivity | reflexivity | unfold valid_player; lia].
Defined.
